(** * The wallet store of symbol-desktop-wallet (src/store/Wallet.ts)

    A shallow embedding of the Vuex module's transaction ledger, hash
    index, page cache, subscription registry and REST page fetch, with the
    properties the specification states about them.

    Conventions of the embedding.
    - A JavaScript string is a [string]: one character per code unit.
    - [undefined] is [None]; an array is a list of slots, and a slot that is
      a hole or holds [undefined] is [None] (the code never tells the two
      apart: it only uses [find], [push], [concat] and [delete] on them).
    - A Vuex getter hands out the array that lives in the state, so a
      [push] on it is a write to the state at that very moment, before any
      [commit]; actions are therefore functions on the whole world.
    - An action either completes normally or throws; the rejected promise
      of an [async] action is a throw as well.
    - What an action does to things outside the store (the page cache being
      consulted, the REST gateway, the console, the websocket handles) is
      recorded, in order, in the world's list of events. *)

From Stdlib Require Import String Ascii NArith.
From stdpp Require Import base option list strings pretty gmap.

Local Open Scope string_scope.
Local Open Scope list_scope.

(** ** JavaScript primitives used by the store *)

Module Js.

(** An array: [None] is an empty slot or [undefined]. *)
Abbreviation Array A := (list (option A)) (only parsing).

(** What a function call can end in. *)
Inductive Exception :=
| Error (message : string)       (* throw new Error(message) *)
| TypeError (message : string)   (* a property read on undefined *)
| ServiceError (message : string). (* raised by the REST gateway or the SDK *)

Inductive Completion (A : Type) :=
| Normal (a : A)
| Throw (e : Exception).
Arguments Normal {A} a.
Arguments Throw {A} e.

Definition describe (e : Exception) : string :=
  match e with
  | Error m => "Error: " +:+ m
  | TypeError m => "TypeError: " +:+ m
  | ServiceError m => "Error: " +:+ m
  end.

(** [String.prototype.toLowerCase]. Only the letters A-Z are mapped: a
    code unit outside ASCII never lowers to a letter of the three group
    names, which is all the store compares the result with. *)
Definition lower (c : ascii) : ascii :=
  let n := nat_of_ascii c in
  if Nat.leb 65 n && Nat.leb n 90 then ascii_of_nat (n + 32) else c.

Fixpoint toLowerCase (s : string) : string :=
  match s with
  | EmptyString => EmptyString
  | String c r => String (lower c) (toLowerCase r)
  end.

Definition is_digit (c : ascii) : bool :=
  Nat.leb 48 (nat_of_ascii c) && Nat.leb (nat_of_ascii c) 57.

Fixpoint decimal (acc : N) (s : string) : option N :=
  match s with
  | EmptyString => Some acc
  | String c r =>
      if is_digit c
      then decimal (acc * 10 + N.of_nat (nat_of_ascii c - 48)) r
      else None
  end.

(** A property name is an array index when it is the canonical decimal
    form of an integer below 2^32 - 1: digits only, no leading zero, and
    (hence) at most ten characters. *)
Definition array_index (key : string) : option N :=
  match key with
  | EmptyString => None
  | String c r =>
      if Nat.leb (String.length key) 10
         && (negb (Ascii.eqb c "0") || String.eqb r "")
      then match decimal 0 key with
           | Some n => if (n <? 4294967295)%N then Some n else None
           | None => None
           end
      else None
  end.

(** [delete array[key]]: an index inside the array leaves a hole there,
    the length stays; any other property name is not an element of the
    array and nothing happens. *)
Definition delete {A} (key : string) (array : Array A) : Array A :=
  match array_index key with
  | Some i =>
      if (i <? N.of_nat (length array))%N
      then <[N.to_nat i := None]> array
      else array
  | None => array
  end.

(** [array.find(predicate)] for a predicate that may throw: the elements
    are visited from the left, the first one satisfying the predicate is
    the result, and [undefined] when there is none. *)
Fixpoint find {A} (predicate : option A -> Completion bool)
    (array : Array A) : Completion (option A) :=
  match array with
  | [] => Normal None
  | slot :: rest =>
      match predicate slot with
      | Throw e => Throw e
      | Normal true => Normal slot
      | Normal false => find predicate rest
      end
  end.

(** [array.push(x)]. *)
Definition push {A} (x : option A) (array : Array A) : Array A :=
  array ++ [x].

(** [base.concat(a1, ..., an)] for array arguments. *)
Definition concat {A} (base : Array A) (arguments : list (Array A)) : Array A :=
  foldl (fun acc a => acc ++ a) base arguments.

(** An object used as a property name: [String(object)], for an object
    that has no [toString] of its own. *)
Definition object_key : string := "[object Object]".

(** A string or [undefined] used as a property name. *)
Definition property_key (k : option string) : string :=
  default "undefined" k.

(** [!s] for a string or [undefined]. *)
Definition falsy (s : option string) : bool :=
  match s with
  | None => true
  | Some s => String.eqb s ""
  end.

End Js.

Import Js.

(** ** Data model *)

(** [transaction.transactionInfo]: the SDK declares both the record and its
    hash optional. *)
Module TransactionInfo.
Record t := make { height : N; hash : option string }.
End TransactionInfo.

(** [transaction.meta], which REMOVE_TRANSACTION reads. *)
Module Meta.
Record t := make { hash : option string }.
End Meta.

(** A transaction as the store sees it: the two places it reads a hash
    from, and the rest of the object. A message that carries no transaction
    at all behaves as one with neither field: every read of
    [transaction.transactionInfo.hash] or [transaction.meta.hash] throws
    the same TypeError. *)
Record Transaction := {
  transactionInfo : option TransactionInfo.t;
  meta : option Meta.t;
  body : string;
}.

(** The payload of ADD_TRANSACTION and REMOVE_TRANSACTION. *)
Record TransactionMessage := {
  group : option string;
  cacheKey : option string;
  transaction : Transaction;
}.

(** An element of a cached collection: [{hash, transaction}]. *)
Module CacheEntry.
Record t := make { hash : option string; transaction : Transaction }.
End CacheEntry.

(** The payload of the mutation addTransactionToCache. *)
Module CachePayload.
Record t := make {
  cacheKey : option string;
  hash : option string;
  transaction : Transaction;
}.
End CachePayload.

(** A websocket handle. Whether [unsubscribe()] or [close()] throws is a
    property of the handle. *)
Record Subscription := { subscription_id : nat; unsubscribe_fails : bool }.
Record Listener := { listener_id : nat; close_fails : bool }.

Module SubscriptionType.
Record t := make { listener : Listener; subscriptions : list Subscription }.
End SubscriptionType.

(** The state of the module. The fields on the current wallet, its
    mosaics, and the staged and signed transactions are left out: none of
    the actions below reads or writes them. *)
Module State.
Record t := make {
  initialized : bool;
  transactionHashes : Array string;
  confirmedTransactions : Array Transaction;
  unconfirmedTransactions : Array Transaction;
  partialTransactions : Array Transaction;
  transactionCache : gmap string (list CacheEntry.t);
  subscriptions : list SubscriptionType.t;
}.

Definition initial : t := {|
  initialized := false;
  transactionHashes := [];
  confirmedTransactions := [];
  unconfirmedTransactions := [];
  partialTransactions := [];
  transactionCache := ∅;
  subscriptions := [];
|}.
End State.

(** ** Effects *)

Inductive Event :=
| CacheRead (key : string)
| ServiceCall (group address : string) (pageSize : N) (id : option string)
| ConsoleError (message : string)
| Dispatched (action : string) (address : string)
| DispatchedBlocks (blockHeights : list N)
| Unsubscribed (id : nat)
| Closed (id : nat).

Record World := { store : State.t; events : list Event }.

Definition initial_world : World := {| store := State.initial; events := [] |}.

Definition Action (A : Type) : Type := World -> Completion A * World.

Definition ret {A} (a : A) : Action A := fun w => (Normal a, w).
Definition throw {A} (e : Exception) : Action A := fun w => (Throw e, w).

Definition bind {A B} (m : Action A) (k : A -> Action B) : Action B :=
  fun w =>
    match m w with
    | (Normal a, w') => k a w'
    | (Throw e, w') => (Throw e, w')
    end.

(** [try { body } catch (e) { handler }]. *)
Definition try_catch {A} (body : Action A) (handler : Exception -> Action A)
    : Action A :=
  fun w =>
    match body w with
    | (Normal a, w') => (Normal a, w')
    | (Throw e, w') => handler e w'
    end.

Definition lift {A} (c : Completion A) : Action A := fun w => (c, w).
Definition get_state : Action State.t := fun w => (Normal (store w), w).
Definition modify (f : State.t -> State.t) : Action unit :=
  fun w => (Normal tt, {| store := f (store w); events := events w |}).
Definition emit (e : Event) : Action unit :=
  fun w => (Normal tt, {| store := store w; events := events w ++ [e] |}).

Notation "'let*' x ':=' m 'in' k" := (bind m (fun x => k))
  (at level 10, x name, m at level 100, k at level 200).

(** [array.map(f)] for its effects, on an array without holes. *)
Fixpoint for_each {A} (f : A -> Action unit) (l : list A) : Action unit :=
  match l with
  | [] => ret tt
  | x :: rest => let* _ := f x in for_each f rest
  end.

(** ** Helper of the module *)

(** [transactionGroupToStateVariable]: the name of the state variable of a
    group, or an Error for any other string. *)
Definition transactionGroupToStateVariable (group : string) : Completion string :=
  let transactionGroup := toLowerCase group in
  if String.eqb transactionGroup "unconfirmed"
     || String.eqb transactionGroup "confirmed"
     || String.eqb transactionGroup "partial"
  then Normal (transactionGroup +:+ "Transactions")
  else Throw (Error ("Unknown transaction group '" +:+ group +:+ "'.")).

(** ** Getters *)

Module Getters.

Definition getInitialized (state : State.t) : bool := State.initialized state.
Definition getSubscriptions (state : State.t) := State.subscriptions state.

(** [getters[name]] for the name of a group's state variable. *)
Definition by_name (name : string) (state : State.t) : option (Array Transaction) :=
  if String.eqb name "confirmedTransactions" then Some (State.confirmedTransactions state)
  else if String.eqb name "unconfirmedTransactions" then Some (State.unconfirmedTransactions state)
  else if String.eqb name "partialTransactions" then Some (State.partialTransactions state)
  else None.

Definition allTransactions (state : State.t) : Array Transaction :=
  concat [] [State.partialTransactions state;
             State.unconfirmedTransactions state;
             State.confirmedTransactions state].

End Getters.

(** ** Mutations *)

Module Mutations.

Definition setInitialized (value : bool) (s : State.t) : State.t :=
  {| State.initialized := value;
     State.transactionHashes := State.transactionHashes s;
     State.confirmedTransactions := State.confirmedTransactions s;
     State.unconfirmedTransactions := State.unconfirmedTransactions s;
     State.partialTransactions := State.partialTransactions s;
     State.transactionCache := State.transactionCache s;
     State.subscriptions := State.subscriptions s |}.

Definition transactionHashes (hashes : Array string) (s : State.t) : State.t :=
  {| State.initialized := State.initialized s;
     State.transactionHashes := hashes;
     State.confirmedTransactions := State.confirmedTransactions s;
     State.unconfirmedTransactions := State.unconfirmedTransactions s;
     State.partialTransactions := State.partialTransactions s;
     State.transactionCache := State.transactionCache s;
     State.subscriptions := State.subscriptions s |}.

Definition confirmedTransactions (transactions : Array Transaction) (s : State.t) : State.t :=
  {| State.initialized := State.initialized s;
     State.transactionHashes := State.transactionHashes s;
     State.confirmedTransactions := transactions;
     State.unconfirmedTransactions := State.unconfirmedTransactions s;
     State.partialTransactions := State.partialTransactions s;
     State.transactionCache := State.transactionCache s;
     State.subscriptions := State.subscriptions s |}.

Definition unconfirmedTransactions (transactions : Array Transaction) (s : State.t) : State.t :=
  {| State.initialized := State.initialized s;
     State.transactionHashes := State.transactionHashes s;
     State.confirmedTransactions := State.confirmedTransactions s;
     State.unconfirmedTransactions := transactions;
     State.partialTransactions := State.partialTransactions s;
     State.transactionCache := State.transactionCache s;
     State.subscriptions := State.subscriptions s |}.

Definition partialTransactions (transactions : Array Transaction) (s : State.t) : State.t :=
  {| State.initialized := State.initialized s;
     State.transactionHashes := State.transactionHashes s;
     State.confirmedTransactions := State.confirmedTransactions s;
     State.unconfirmedTransactions := State.unconfirmedTransactions s;
     State.partialTransactions := transactions;
     State.transactionCache := State.transactionCache s;
     State.subscriptions := State.subscriptions s |}.

Definition setSubscriptions (data : list SubscriptionType.t) (s : State.t) : State.t :=
  {| State.initialized := State.initialized s;
     State.transactionHashes := State.transactionHashes s;
     State.confirmedTransactions := State.confirmedTransactions s;
     State.unconfirmedTransactions := State.unconfirmedTransactions s;
     State.partialTransactions := State.partialTransactions s;
     State.transactionCache := State.transactionCache s;
     State.subscriptions := data |}.

Definition setTransactionCache (cache : gmap string (list CacheEntry.t)) (s : State.t) : State.t :=
  {| State.initialized := State.initialized s;
     State.transactionHashes := State.transactionHashes s;
     State.confirmedTransactions := State.confirmedTransactions s;
     State.unconfirmedTransactions := State.unconfirmedTransactions s;
     State.partialTransactions := State.partialTransactions s;
     State.transactionCache := cache;
     State.subscriptions := State.subscriptions s |}.

(** [addTransactionToCache]: the collection is filed under
    [payload.cacheKey]; a payload without that field files it under the
    property name "undefined". *)
Definition addTransactionToCache (payload : option CachePayload.t) (s : State.t) : State.t :=
  match payload with
  | None => s
  | Some payload =>
      let key := property_key (CachePayload.cacheKey payload) in
      let cache := State.transactionCache s in
      let cache :=
        match cache !! key with
        | Some _ => cache
        | None => <[key := []]> cache
        end in
      let entry := CacheEntry.make (CachePayload.hash payload)
                                   (CachePayload.transaction payload) in
      setTransactionCache (alter (fun entries => entries ++ [entry]) key cache) s
  end.

(** [commit(name, transactions)] where the name of the mutation is one of
    the three group variables; Vuex ignores an unknown mutation. *)
Definition by_name (name : string) (transactions : Array Transaction) (s : State.t) : State.t :=
  if String.eqb name "confirmedTransactions" then confirmedTransactions transactions s
  else if String.eqb name "unconfirmedTransactions" then unconfirmedTransactions transactions s
  else if String.eqb name "partialTransactions" then partialTransactions transactions s
  else s.

End Mutations.

(** ** Actions on the ledger *)

(** [transaction.transactionInfo.hash]. *)
Definition transactionInfo_hash (transaction : Transaction) : Completion (option string) :=
  match transactionInfo transaction with
  | None => Throw (TypeError "Cannot read property 'hash' of undefined")
  | Some info => Normal (TransactionInfo.hash info)
  end.

(** [tx.meta.hash] for an element of an array. *)
Definition meta_hash (tx : option Transaction) : Completion (option string) :=
  match tx with
  | None => Throw (TypeError "Cannot read property 'meta' of undefined")
  | Some tx =>
      match meta tx with
      | None => Throw (TypeError "Cannot read property 'hash' of undefined")
      | Some m => Normal (Meta.hash m)
      end
  end.

(** [getters[transactionGroup]], needed as an array. *)
Definition group_array (transactionGroup : string) : Action (Array Transaction) :=
  fun w =>
    match Getters.by_name transactionGroup (store w) with
    | Some transactions => (Normal transactions, w)
    | None => (Throw (TypeError "Cannot read property of undefined"), w)
    end.

Definition RESET_TRANSACTIONS : Action unit :=
  let* _ := modify (Mutations.confirmedTransactions []) in
  let* _ := modify (Mutations.unconfirmedTransactions []) in
  modify (Mutations.partialTransactions []).

Definition ADD_TRANSACTION (transactionMessage : option TransactionMessage) : Action unit :=
  match transactionMessage with
  | None =>
      throw (Error "Missing mandatory field 'group' for action wallet/addTransaction.")
  | Some message =>
      if falsy (group message)
      then throw (Error "Missing mandatory field 'group' for action wallet/addTransaction.")
      else
        (* format transactionGroup to store variable name *)
        let* transactionGroup :=
          lift (transactionGroupToStateVariable (default "" (group message))) in
        (* if transaction hash is known, do nothing *)
        let* state := get_state in
        let hashes := State.transactionHashes state in
        let transaction := transaction message in
        let* findIterator :=
          lift (find (fun hash =>
                        match transactionInfo_hash transaction with
                        | Throw e => Throw e
                        | Normal h => Normal (bool_decide (hash = h))
                        end) hashes) in
        match findIterator with
        | Some _ => ret tt (* transaction already known *)
        | None =>
            (* register transaction: both arrays are the ones in the state *)
            let* transactions := group_array transactionGroup in
            let transactions := push (Some transaction) transactions in
            let* _ := modify (Mutations.by_name transactionGroup transactions) in
            let* hash := lift (transactionInfo_hash transaction) in
            let hashes := push hash hashes in
            let* _ := modify (Mutations.transactionHashes hashes) in
            (* update state *)
            let* _ := modify (Mutations.addTransactionToCache
                                (Some (CachePayload.make None hash transaction))) in
            let* _ := modify (Mutations.by_name transactionGroup transactions) in
            modify (Mutations.transactionHashes hashes)
        end
  end.

Definition REMOVE_TRANSACTION (transactionMessage : option TransactionMessage) : Action unit :=
  match transactionMessage with
  | None =>
      throw (Error "Missing mandatory field 'group' for action wallet/removeTransaction.")
  | Some message =>
      if falsy (group message)
      then throw (Error "Missing mandatory field 'group' for action wallet/removeTransaction.")
      else
        (* format transactionGroup to store variable name *)
        let* transactionGroup :=
          lift (transactionGroupToStateVariable (default "" (group message))) in
        (* read from store *)
        let* state := get_state in
        let hashes := State.transactionHashes state in
        (* prepare search *)
        let transaction := transaction message in
        let* transactionHash := lift (meta_hash (Some transaction)) in
        (* find transaction in storage *)
        let* findHashIt :=
          lift (find (fun hash => Normal (bool_decide (hash = transactionHash))) hashes) in
        let* transactions := group_array transactionGroup in
        let* findIterator :=
          lift (find (fun tx =>
                        match meta_hash tx with
                        | Throw e => Throw e
                        | Normal h => Normal (bool_decide (h = transactionHash))
                        end) transactions) in
        match findIterator with
        | None => ret tt (* not found, do nothing *)
        | Some _ =>
            (* remove transaction: the property names are the found
               elements themselves, not their positions *)
            let transactions := delete object_key transactions in
            let* _ := modify (Mutations.by_name transactionGroup transactions) in
            let hashes := delete (property_key findHashIt) hashes in
            let* _ := modify (Mutations.transactionHashes hashes) in
            let* _ := modify (Mutations.by_name transactionGroup transactions) in
            modify (Mutations.transactionHashes hashes)
        end
  end.

(** ** Websocket handles *)

Definition unsubscribe (sub : Subscription) : Action unit :=
  if unsubscribe_fails sub
  then throw (ServiceError "unsubscribe failed")
  else emit (Unsubscribed (subscription_id sub)).

Definition close (listener : Listener) : Action unit :=
  if close_fails listener
  then throw (ServiceError "close failed")
  else emit (Closed (listener_id listener)).

Definition RESET_SUBSCRIPTIONS : Action unit :=
  modify (Mutations.setSubscriptions []).

Definition UNSUBSCRIBE : Action unit :=
  let* state := get_state in
  let subscriptions := Getters.getSubscriptions state in
  let* _ :=
    for_each (fun subscription =>
                (* unsubscribe channels *)
                let* _ := for_each unsubscribe
                            (SubscriptionType.subscriptions subscription) in
                (* close listener *)
                close (SubscriptionType.listener subscription))
             subscriptions in
  (* update state *)
  RESET_SUBSCRIPTIONS.

(** ** REST API *)

(** What the action needs from outside the module; none of it is part of
    the module, all of it is a parameter:
    - [CacheKey.create], the fingerprint of a query;
    - [rootGetters['network/currentPeer'].url], which throws when no peer
      is set;
    - [Address.createFromRawAddress], which throws on a string that is no
      address;
    - the three requests of the gateway [RESTService.create('AccountHttp',
      currentPeer)], each yielding a page or failing. *)
Record Env := {
  CacheKey_create : string -> string -> N -> option string -> string;
  currentPeer : Completion string;
  createFromRawAddress : string -> Completion string;
  getAccountTransactions :
    string -> string -> N -> option string -> Completion (list Transaction);
  getAccountUnconfirmedTransactions :
    string -> string -> N -> option string -> Completion (list Transaction);
  getAccountPartialTransactions :
    string -> string -> N -> option string -> Completion (list Transaction);
}.

(** The argument of REST_FETCH_TRANSACTIONS: [{group, address, pageSize, id}]. *)
Module Query.
Record t := make {
  group : option string;
  address : option string;
  pageSize : N;
  id : option string;
}.
End Query.

(** What REST_FETCH_TRANSACTIONS resolves to. *)
Inductive FetchResult :=
| ReturnUndefined                                      (* return ; *)
| ReturnCached (collection : list CacheEntry.t)        (* return cache[cacheKey] *)
| ReturnTransactions (transactions : list Transaction) (* return transactions *)
| ReturnFalse.                                         (* return false *)

(** [['partial', 'unconfirmed', 'confirmed'].includes(group)]. *)
Definition is_group (group : string) : bool :=
  String.eqb group "partial" || String.eqb group "unconfirmed"
  || String.eqb group "confirmed".

(** [if (!group || !is_group(group)) group = 'confirmed']. *)
Definition group_or_default (group : option string) : string :=
  match group with
  | Some g => if falsy (Some g) || negb (is_group g) then "confirmed" else g
  | None => "confirmed"
  end.

(** [blockHeights.push(transaction.transactionInfo.height.compact())] for
    a variable that may never have been assigned. *)
Definition record_height (blockHeights : option (list N)) (transaction : Transaction)
    : Completion (option (list N)) :=
  match blockHeights with
  | None => Throw (TypeError "Cannot read property 'push' of undefined")
  | Some heights =>
      match transactionInfo transaction with
      | None => Throw (TypeError "Cannot read property 'height' of undefined")
      | Some info => Normal (Some (heights ++ [TransactionInfo.height info]))
      end
  end.

Fixpoint record_heights (blockHeights : option (list N)) (transactions : list Transaction)
    : Completion (option (list N)) :=
  match transactions with
  | [] => Normal blockHeights
  | transaction :: rest =>
      match record_height blockHeights transaction with
      | Throw e => Throw e
      | Normal blockHeights => record_heights blockHeights rest
      end
  end.

(** A request to the gateway: the call is made, then its outcome is known. *)
Definition request (call : Event) (response : Completion (list Transaction))
    : Action (list Transaction) :=
  let* _ := emit call in
  lift response.

Definition REST_FETCH_TRANSACTIONS (env : Env) (query : Query.t) : Action FetchResult :=
  let group := group_or_default (Query.group query) in
  match Query.address query with
  | None => ret ReturnUndefined
  | Some address =>
      if falsy (Some address) || negb (Nat.eqb (String.length address) 40)
      then ret ReturnUndefined
      else
        (* check cache for results *)
        let cacheKey :=
          CacheKey_create env group address (Query.pageSize query) (Query.id query) in
        let* _ := emit (CacheRead cacheKey) in
        let* state := get_state in
        match State.transactionCache state !! cacheKey with
        | Some collection => ret (ReturnCached collection)
        | None =>
            try_catch
              ((* prepare REST parameters *)
               let* currentPeer := lift (currentPeer env) in
               let* addressObject := lift (createFromRawAddress env address) in
               (* fetch transactions from REST gateway *)
               let call := ServiceCall group address
                             (Query.pageSize query) (Query.id query) in
               (* let blockHeights: number[] -- declared, never assigned *)
               let blockHeights : option (list N) := None in
               let* fetched :=
                 if String.eqb "confirmed" group then
                   let* transactions :=
                     request call (getAccountTransactions env currentPeer addressObject
                                     (Query.pageSize query) (Query.id query)) in
                   (* record block height to be fetched *)
                   let* blockHeights := lift (record_heights blockHeights transactions) in
                   ret (transactions, blockHeights)
                 else if String.eqb "unconfirmed" group then
                   let* transactions :=
                     request call (getAccountUnconfirmedTransactions env currentPeer addressObject
                                     (Query.pageSize query) (Query.id query)) in
                   ret (transactions, blockHeights)
                 else if String.eqb "partial" group then
                   let* transactions :=
                     request call (getAccountPartialTransactions env currentPeer addressObject
                                     (Query.pageSize query) (Query.id query)) in
                   ret (transactions, blockHeights)
                 else throw (TypeError "Cannot read property 'map' of undefined") in
               let transactions := fst fetched in
               let blockHeights := snd fetched in
               (* update store *)
               let* _ :=
                 for_each (fun transaction =>
                             ADD_TRANSACTION
                               (Some {| group := Some group;
                                        cacheKey := Some cacheKey;
                                        transaction := transaction |}))
                          transactions in
               (* fetch block informations if necessary *)
               let* heights :=
                 match blockHeights with
                 | None => throw (TypeError "Cannot read property 'length' of undefined")
                 | Some heights => ret heights
                 end in
               let* _ :=
                 if Nat.eqb (length heights) 0 then ret tt
                 else emit (DispatchedBlocks heights) in
               ret (ReturnTransactions transactions))
              (fun e =>
                 let* _ :=
                   emit (ConsoleError
                           ("An error happened while trying to fetch transactions: "
                            +:+ describe e)) in
                 ret ReturnFalse)
        end
  end.

(** ** Initialization *)

(** Modelled from the spec: the lock of ./AwaitLock, which is not among the
    sources. It is a strict mutual-exclusion gate around an asynchronous
    body that runs to completion before the lock is released; in a run
    where nothing else holds the lock that is the body itself. *)
Module Lock.
Definition initialize (callback : Action unit) : Action unit := callback.
Definition uninitialize (callback : Action unit) : Action unit := callback.
End Lock.

(** REST_FETCH_INFO and SUBSCRIBE are asynchronous actions that are
    dispatched and not awaited: their writes to the store come later, if
    at all, and the dispatch itself is all that is recorded. *)
Definition initialize (address : option string) : Action unit :=
  let callback : Action unit :=
    if falsy address then ret tt
    else
      let address := default "" address in
      (* fetch account info *)
      let* _ := emit (Dispatched "REST_FETCH_INFO" address) in
      (* open websocket connections *)
      let* _ := emit (Dispatched "SUBSCRIBE" address) in
      let* _ := RESET_TRANSACTIONS in
      modify (Mutations.setInitialized true) in
  Lock.initialize callback.

Definition uninitialize : Action unit :=
  let callback : Action unit :=
    (* close websocket connections *)
    let* _ := UNSUBSCRIBE in
    let* _ := RESET_TRANSACTIONS in
    modify (Mutations.setInitialized false) in
  Lock.uninitialize callback.

(** ** Vocabulary of the properties *)

(** The hash under which ADD_TRANSACTION registers an element of a group. *)
Definition slot_hash (slot : option Transaction) : option string :=
  match slot with
  | Some transaction =>
      match transactionInfo transaction with
      | Some info => TransactionInfo.hash info
      | None => None
      end
  | None => None
  end.

(** The hashes of the ledger: those of the partial, the unconfirmed and
    the confirmed sequence, with their multiplicity. *)
Definition ledger_hashes (state : State.t) : list string :=
  omap slot_hash (State.partialTransactions state)
  ++ omap slot_hash (State.unconfirmedTransactions state)
  ++ omap slot_hash (State.confirmedTransactions state).

(** Every hash of the ledger is in the hash index, and no hash is in the
    ledger twice, be it in two sequences or in one. *)
Definition ledger_invariant (state : State.t) : Prop :=
  (∀ h, h ∈ ledger_hashes state → Some h ∈ State.transactionHashes state)
  ∧ NoDup (ledger_hashes state).

(** The operations that write to the ledger. *)
Inductive Operation :=
| Add (transactionMessage : option TransactionMessage)
| Remove (transactionMessage : option TransactionMessage)
| Reset.

Definition perform (operation : Operation) : Action unit :=
  match operation with
  | Add transactionMessage => ADD_TRANSACTION transactionMessage
  | Remove transactionMessage => REMOVE_TRANSACTION transactionMessage
  | Reset => RESET_TRANSACTIONS
  end.

(** The world an operation leaves behind, whether it returned or threw. *)
Definition after (operation : Operation) (w : World) : World :=
  snd (perform operation w).

Definition run (operations : list Operation) (w : World) : World :=
  foldl (fun w operation => after operation w) w operations.

(** The hash REMOVE_TRANSACTION is asked to remove is no array index. A
    transaction hash is a digest of 64 hexadecimal digits, and an array
    index has ten digits at most. *)
Definition removes_a_digest (operation : Operation) : Prop :=
  match operation with
  | Remove (Some message) =>
      ∀ h, meta_hash (Some (transaction message)) = Normal (Some h) →
           array_index h = None
  | _ => True
  end.

(** A group tag neither of the three, whatever its case. *)
Definition unknown_group (group : option string) : Prop :=
  match group with
  | Some g => is_group (toLowerCase g) = false
  | None => True
  end.

(** The events of tearing one handle down: its channels, then its listener. *)
Definition teardown (handle : SubscriptionType.t) : list Event :=
  map (fun sub => Unsubscribed (subscription_id sub))
      (SubscriptionType.subscriptions handle)
  ++ [Closed (listener_id (SubscriptionType.listener handle))].

(** A handle of which no part throws. *)
Definition sound (handle : SubscriptionType.t) : Prop :=
  close_fails (SubscriptionType.listener handle) = false
  ∧ Forall (fun sub => unsubscribe_fails sub = false)
           (SubscriptionType.subscriptions handle).

Definition is_service_call (e : Event) : bool :=
  match e with
  | ServiceCall _ _ _ _ => true
  | _ => false
  end.

(** How often the gateway has been called. *)
Definition service_calls (w : World) : nat :=
  length (List.filter is_service_call (events w)).

(** The name of the state variable of a group. *)
Definition is_variable (name : string) : Prop :=
  name = "unconfirmedTransactions" ∨ name = "confirmedTransactions"
  ∨ name = "partialTransactions".

(** The part of the world ADD_TRANSACTION cannot touch: the events, and
    every collection of the cache but the one named "undefined". *)
Definition framed (key : string) (w w' : World) : Prop :=
  events w' = events w
  ∧ (key ≠ "undefined" →
     State.transactionCache (store w') !! key = State.transactionCache (store w) !! key).

(** How often a value occurs in a list. *)
Definition occurrences {A} `{EqDecision A} (x : A) (l : list A) : nat :=
  length (filter (λ y, y = x) l).

(** ** Inputs of the examples *)

Module Example.

Definition hash_1 : string :=
  "A1B2C3D4E5F60718293A4B5C6D7E8F90A1B2C3D4E5F60718293A4B5C6D7E8F90".

Definition hash_2 : string :=
  "0F1E2D3C4B5A69788796A5B4C3D2E1F00F1E2D3C4B5A69788796A5B4C3D2E1F0".

Definition address_1 : string := "TAHNZXQBC57AA7KJTMGS3PJPZBXN7DV5JHJU42GL".

(** A transaction as the SDK builds it: no [meta]. *)
Definition transaction_1 : Transaction :=
  {| transactionInfo := Some (TransactionInfo.make 120 (Some hash_1));
     meta := None;
     body := "transfer 1" |}.

Definition transaction_2 : Transaction :=
  {| transactionInfo := Some (TransactionInfo.make 121 (Some hash_2));
     meta := None;
     body := "transfer 2" |}.

(** A transaction that has its hash in both places the store reads. *)
Definition transaction_3 : Transaction :=
  {| transactionInfo := Some (TransactionInfo.make 120 (Some hash_1));
     meta := Some (Meta.make (Some hash_1));
     body := "transfer 3" |}.

Definition message (group : string) (transaction : Transaction)
    : option TransactionMessage :=
  Some {| group := Some group; cacheKey := None; transaction := transaction |}.

(** Modelled from the spec: the fingerprint of CacheKey.create, which is
    not among the sources: a stable concatenation of the four fields. *)
Definition fingerprint (group address : string) (pageSize : N) (id : option string)
    : string :=
  group +:+ "|" +:+ address +:+ "|" +:+ pretty pageSize +:+ "|" +:+ default "" id.

(** A gateway that has no confirmed transaction, one unconfirmed one, and
    fails on the partial ones. *)
Definition env : Env :=
  {| CacheKey_create := fingerprint;
     currentPeer := Normal "http://api-01.example.org:3000";
     createFromRawAddress := fun address => Normal address;
     getAccountTransactions := fun _ _ _ _ => Normal [];
     getAccountUnconfirmedTransactions := fun _ _ _ _ => Normal [transaction_1];
     getAccountPartialTransactions :=
       fun _ _ _ _ => Throw (ServiceError "connect ECONNREFUSED") |}.

Definition query (group : string) : Query.t :=
  Query.make (Some group) (Some address_1) 10 None.

(** One confirmed transaction, known by its hash. *)
Definition world_1 : World :=
  {| store :=
       {| State.initialized := true;
          State.transactionHashes := [Some hash_1];
          State.confirmedTransactions := [Some transaction_3];
          State.unconfirmedTransactions := [];
          State.partialTransactions := [];
          State.transactionCache := ∅;
          State.subscriptions := [] |};
     events := [] |}.

Definition handle (id : nat) (close_fails : bool) : SubscriptionType.t :=
  SubscriptionType.make
    {| listener_id := id; close_fails := close_fails |}
    [ {| subscription_id := 10 * id; unsubscribe_fails := false |};
      {| subscription_id := 10 * id + 1; unsubscribe_fails := false |} ].

(** Two registered handles; closing the first one throws. *)
Definition world_2 : World :=
  {| store := Mutations.setSubscriptions [handle 1 true; handle 2 false] State.initial;
     events := [] |}.

(** Three handles; closing the second one throws. *)
Definition world_3 : World :=
  {| store := Mutations.setSubscriptions
                [handle 1 false; handle 2 true; handle 3 false] State.initial;
     events := [] |}.

(** A run of the ledger. *)
Definition operations : list Operation :=
  [ Add (message "confirmed" transaction_3);
    Add (message "Partial" transaction_2);
    Add (message "unconfirmed" transaction_1);
    Remove (message "confirmed" transaction_3);
    Reset;
    Add (message "bogus" transaction_2);
    Add (message "unconfirmed" transaction_2) ].

End Example.

(** ** The stage, the signed transactions and the account information

    The rest of the module's state, each part with the mutations and
    actions that use it. *)

Module JsIndex.

(** [array.findIndex(predicate)] for a predicate that may throw: the
    position of the first element satisfying it, and -1 when there is
    none. *)
Fixpoint findIndex_from {A} (predicate : option A -> Completion bool)
    (array : Array A) (position : Z) : Completion Z :=
  match array with
  | [] => Normal (-1)%Z
  | slot :: rest =>
      match predicate slot with
      | Throw e => Throw e
      | Normal true => Normal position
      | Normal false => findIndex_from predicate rest (position + 1)%Z
      end
  end.

Definition findIndex {A} (predicate : option A -> Completion bool)
    (array : Array A) : Completion Z :=
  findIndex_from predicate array 0%Z.

(** [undefined !== n] for a number [n] holds: a number is never
    [undefined]. *)
Definition is_undefined (n : Z) : bool := false.

(** [delete array[n]] for an integer [n]: a hole at a position of the
    array; a negative [n] names no element. *)
Definition delete_at {A} (n : Z) (array : Array A) : Array A :=
  if (n <? 0)%Z then array else <[Z.to_nat n := None]> array.

(** [Array.from(array)]: a copy of the same length, in which a hole has
    become [undefined]. *)
Definition from {A} (array : Array A) : Array A := array.

End JsIndex.

(** The staged transactions: an array, and the properties other than
    elements that have been assigned to it. *)
Module Stage.
Record t := make {
  elements : Array Transaction;
  named : gmap string Transaction;
}.

Definition initial : t := make [] ∅.

(** [staged[n] = transaction] for an integer [n]: an element is replaced,
    the array is extended up to position [n], or, for a negative [n], the
    property of that name is set and the elements stay. *)
Definition assign (n : Z) (transaction : Transaction) (staged : t) : t :=
  if (n <? 0)%Z
  then make (elements staged) (<[pretty n := transaction]> (named staged))
  else
    let i := Z.to_nat n in
    if Nat.ltb i (length (elements staged))
    then make (<[i := Some transaction]> (elements staged)) (named staged)
    else make (elements staged
               ++ replicate (i - length (elements staged)) None
               ++ [Some transaction])
              (named staged).

(** [tx.transactionInfo.hash] for an element of the array. *)
Definition element_hash (tx : option Transaction) : Completion (option string) :=
  match tx with
  | None => Throw (TypeError "Cannot read property 'transactionInfo' of undefined")
  | Some tx => transactionInfo_hash tx
  end.

Definition setStagedTransactions (transactions : list Transaction) (staged : t) : t :=
  make (Some <$> transactions) ∅.

Definition addStagedTransaction (transaction : Transaction) (staged : t)
    : Completion t :=
  (* update instead of push if transaction exists on stage *)
  match JsIndex.findIndex
          (fun tx =>
             match element_hash tx with
             | Throw e => Throw e
             | Normal h =>
                 match transactionInfo_hash transaction with
                 | Throw e => Throw e
                 | Normal h' => Normal (bool_decide (h = h'))
                 end
             end) (elements staged) with
  | Throw e => Throw e
  | Normal findIndex =>
      if negb (JsIndex.is_undefined findIndex)
      then Normal (assign findIndex transaction staged)
      else (* push transaction on stage (order matters) *)
        Normal (make (push (Some transaction) (elements staged)) (named staged))
  end.

(** The two actions on the stage. *)
Definition ADD_STAGED_TRANSACTION (stagedTransaction : Transaction) (staged : t)
    : Completion t :=
  addStagedTransaction stagedTransaction staged.

Definition RESET_TRANSACTION_STAGE (staged : t) : t :=
  setStagedTransactions [] staged.

Inductive Operation :=
| Stage (stagedTransaction : Transaction)
| Reset.

(** The stage an action leaves behind; a mutation that throws has not
    written. *)
Definition after (operation : Operation) (staged : t) : t :=
  match operation with
  | Stage stagedTransaction =>
      match ADD_STAGED_TRANSACTION stagedTransaction staged with
      | Normal staged' => staged'
      | Throw _ => staged
      end
  | Reset => RESET_TRANSACTION_STAGE staged
  end.

Definition run (operations : list Operation) (staged : t) : t :=
  foldl (fun staged operation => after operation staged) staged operations.

End Stage.

(** The signed transactions. A [SignedTransaction] of the SDK always has
    its hash. *)
Module Signed.
Record t := make { payload : string; hash : string }.

(** [new TransactionBroadcastResult(transaction, success, error)]. *)
Record TransactionBroadcastResult := {
  transaction : t;
  success : bool;
  error : option string;
}.

Definition addSignedTransaction (transaction : t) (signed : Array t) : Array t :=
  push (Some transaction) signed.

Definition removeSignedTransaction (transaction : t) (signed : Array t)
    : Completion (Array t) :=
  (* find transaction by hash and delete *)
  match JsIndex.findIndex
          (fun tx =>
             match tx with
             | None => Throw (TypeError "Cannot read property 'hash' of undefined")
             | Some tx => Normal (bool_decide (hash tx = hash transaction))
             end) signed with
  | Throw e => Throw e
  | Normal findIndex =>
      let signed :=
        if negb (JsIndex.is_undefined findIndex)
        then JsIndex.delete_at findIndex signed
        else signed in
      (* use Array.from to reset indexes *)
      Normal (JsIndex.from signed)
  end.

(** The function REST_ANNOUNCE_TRANSACTION maps over the announced
    transaction. *)
Definition announced (signedTransaction : t) (signed : Array t)
    : Completion TransactionBroadcastResult * Array t :=
  match removeSignedTransaction signedTransaction signed with
  | Throw e => (Throw e, signed)
  | Normal signed =>
      (Normal {| transaction := signedTransaction; success := true; error := None |},
       signed)
  end.

(** The function REST_ANNOUNCE_PARTIAL maps over the announced aggregate:
    the partial transaction is removed first, then the lock. A mutation
    that throws has not written. *)
Definition announced_partial (signedLock signedPartial : t) (signed : Array t)
    : Completion TransactionBroadcastResult * Array t :=
  match removeSignedTransaction signedPartial signed with
  | Throw e => (Throw e, signed)
  | Normal signed =>
      match removeSignedTransaction signedLock signed with
      | Throw e => (Throw e, signed)
      | Normal signed =>
          (Normal {| transaction := signedPartial; success := true; error := None |},
           signed)
      end
  end.

(** No empty slot, and no two elements with one hash. *)
Definition tidy (signed : Array t) : Prop :=
  ∃ transactions, signed = Some <$> transactions ∧ NoDup (hash <$> transactions).

End Signed.

(** The account information. *)
Module Account.

Record Address := { plain : string }.
Record Mosaic := { id : string; amount : N }.
Record AccountInfo := {
  address : Address;
  publicKey : string;
  mosaics : list Mosaic;
}.

Record t := make {
  currentWalletAddress : option Address;     (* null until a wallet is set *)
  currentWalletInfo : option AccountInfo;
  currentWalletMosaics : Array Mosaic;
  otherWalletsInfo : gmap string AccountInfo;
}.

Definition initial : t := make None None [] ∅.

(** The state and what was written to the console. *)
Record World := { state : t; console : list string }.

(** What the actions need from outside the module: the peer and the
    address parser as for the transactions, the two requests of the
    gateway, and [rootGetters['mosaic/networkMosaic']]. *)
Record Env := {
  currentPeer : Completion string;
  createFromRawAddress : string -> Completion Address;
  getAccountInfo : string -> Address -> Completion AccountInfo;
  getAccountsInfo : string -> list Address -> Completion (list AccountInfo);
  networkMosaic : string;
}.

Inductive Result :=
| ReturnUndefined
| ReturnInfo (accountInfo : AccountInfo)
| ReturnInfos (accountsInfo : list AccountInfo)
| ReturnFalse.

Definition log (message : string) (w : World) : World :=
  {| state := state w; console := console w ++ [message] |}.

Definition write (f : t -> t) (w : World) : World :=
  {| state := f (state w); console := console w |}.

(** The mutations. *)
Definition addWalletInfo (walletInfo : AccountInfo) (s : t) : t :=
  make (currentWalletAddress s) (currentWalletInfo s) (currentWalletMosaics s)
       (<[plain (address walletInfo) := walletInfo]> (otherWalletsInfo s)).

Definition setCurrentWalletInfo (accountInfo : AccountInfo) (s : t) : t :=
  make (currentWalletAddress s) (Some accountInfo) (currentWalletMosaics s)
       (otherWalletsInfo s).

Definition setCurrentWalletMosaics (mosaics : Array Mosaic) (s : t) : t :=
  make (currentWalletAddress s) (currentWalletInfo s) mosaics (otherWalletsInfo s).

(** [commit(name, mosaics)]: the one mutation of the module that takes a
    list of mosaics is 'currentWalletMosaics'. For a name the module does
    not have, Vuex writes nothing to the state; the line on the console is
    the one of its development build. *)
Definition commit_mosaics (name : string) (mosaics : Array Mosaic) (w : World) : World :=
  if String.eqb name "currentWalletMosaics"
  then write (setCurrentWalletMosaics mosaics) w
  else log ("[vuex] unknown mutation type: wallet/" +:+ name) w.

(** [mosaics.filter(f).shift()] and [mosaics.find(f)]: the first element
    satisfying [f], or [undefined]. *)
Definition first (f : Mosaic -> bool) (mosaics : list Mosaic) : option Mosaic :=
  head (List.filter f mosaics).

(** What SET_BALANCES hands to the mutation. *)
Definition balances (networkMosaic : string) (mosaics : list Mosaic) : Array Mosaic :=
  if Nat.eqb (length mosaics) 0
  then (* if there is no mosaics, add network mosaic balance 0 *)
    [Some {| id := networkMosaic; amount := 0 |}]
  else (* if there is mosaics, set network mosaic on top *)
    let currency := first (fun m => String.eqb (id m) networkMosaic) mosaics in
    [currency]
    ++ match first (fun m => negb (String.eqb (id m) networkMosaic)) mosaics with
       | Some other => [Some other]
       | None => []
       end.

Definition SET_BALANCES (env : Env) (mosaics : list Mosaic) (w : World) : World :=
  commit_mosaics "currentWalletMosics" (balances (networkMosaic env) mosaics) w.

Definition REST_FETCH_INFO (env : Env) (address : option string) (w : World)
    : Result * World :=
  match address with
  | None => (ReturnUndefined, w)
  | Some address =>
      if falsy (Some address) || negb (Nat.eqb (String.length address) 40)
      then (ReturnUndefined, w)
      else
        let attempt : Completion AccountInfo * World :=
          (* prepare REST parameters *)
          match currentPeer env with
          | Throw e => (Throw e, w)
          | Normal currentPeer =>
          match createFromRawAddress env address with
          | Throw e => (Throw e, w)
          | Normal addressObject =>
          (* fetch account info from REST gateway *)
          match getAccountInfo env currentPeer addressObject with
          | Throw e => (Throw e, w)
          | Normal accountInfo =>
              let w := write (addWalletInfo accountInfo) w in
              (* update current wallet state if necessary *)
              match currentWalletAddress (state w) with
              | None => (Throw (TypeError "Cannot read property 'plain' of null"), w)
              | Some current =>
                  if String.eqb address (plain current)
                  then
                    let w := write (setCurrentWalletInfo accountInfo) w in
                    let w := SET_BALANCES env (mosaics accountInfo) w in
                    (Normal accountInfo, w)
                  else (Normal accountInfo, w)
              end
          end end end in
        match attempt with
        | (Normal accountInfo, w) => (ReturnInfo accountInfo, w)
        | (Throw e, w) =>
            (ReturnFalse,
             log ("An error happened while trying to fetch account information: <pre>"
                  +:+ describe e +:+ "</pre>") w)
        end
  end.

Definition REST_FETCH_INFOS (env : Env) (addresses : list Address) (w : World)
    : Result * World :=
  let attempt : Completion (list AccountInfo) * World :=
    (* prepare REST parameters *)
    match currentPeer env with
    | Throw e => (Throw e, w)
    | Normal currentPeer =>
    (* fetch account info from REST gateway *)
    match getAccountsInfo env currentPeer addresses with
    | Throw e => (Throw e, w)
    | Normal accountsInfo =>
        (Normal accountsInfo,
         foldl (fun w info => write (addWalletInfo info) w) w accountsInfo)
    end end in
  match attempt with
  | (Normal accountsInfo, w) => (ReturnInfos accountsInfo, w)
  | (Throw e, w) =>
      (ReturnFalse,
       log ("An error happened while trying to fetch account information: <pre>"
            +:+ describe e +:+ "</pre>") w)
  end.

End Account.

(** ** Vocabulary of the further properties *)

(** The cache has the one collection "undefined" at most, whose entries
    carry, in order, the hashes of the hash index. *)
Definition cache_invariant (state : State.t) : Prop :=
  (∀ key, key ≠ "undefined" → State.transactionCache state !! key = None)
  ∧ CacheEntry.hash <$> default [] (State.transactionCache state !! "undefined")
    = State.transactionHashes state.

(** A transaction that has a [transactionInfo], the hash of which is not
    the given one. *)
Definition other_hash (h : option string) (tx : Transaction) : Prop :=
  ∃ info, transactionInfo tx = Some info ∧ TransactionInfo.hash info ≠ h.

(** The events REST_FETCH_TRANSACTIONS can add. *)
Definition is_fetch_event (e : Event) : bool :=
  match e with
  | CacheRead _ | ServiceCall _ _ _ _ | ConsoleError _ => true
  | _ => false
  end.

Module Example2.

Definition signed_1 : Signed.t := Signed.make "B0000000" Example.hash_1.
Definition signed_2 : Signed.t := Signed.make "C0000000" Example.hash_2.

Definition address_2 : Account.Address :=
  {| Account.plain := "TBMUUBMVCLKCC4T6IC3RHDEO4ZGCXKP7LZSLN5KC" |}.

Definition info_1 : Account.AccountInfo :=
  {| Account.address := {| Account.plain := Example.address_1 |};
     Account.publicKey := "";
     Account.mosaics := [ {| Account.id := "51A99028058245A8"; Account.amount := 5 |};
                          {| Account.id := "6300565133566699"; Account.amount := 7 |} ] |}.

Definition info_2 : Account.AccountInfo :=
  {| Account.address := address_2; Account.publicKey := ""; Account.mosaics := [] |}.

Definition env : Account.Env :=
  {| Account.currentPeer := Normal "http://api-01.example.org:3000";
     Account.createFromRawAddress := fun raw => Normal {| Account.plain := raw |};
     Account.getAccountInfo := fun _ _ => Normal info_1;
     Account.getAccountsInfo := fun _ _ => Normal [info_1; info_2];
     Account.networkMosaic := "51A99028058245A8" |}.

Definition world : Account.World :=
  {| Account.state := Account.initial; Account.console := [] |}.

(** The first address is the one of the current wallet. *)
Definition world_7 : Account.World :=
  {| Account.state :=
       Account.make (Some {| Account.plain := Example.address_1 |}) None [] ∅;
     Account.console := [] |}.

(** A transaction that has a [transactionInfo] without hash. *)
Definition transaction_4 : Transaction :=
  {| transactionInfo := Some (TransactionInfo.make 0 None);
     meta := None;
     body := "embedded transfer" |}.

(** A transaction that was not announced yet: no [transactionInfo]. *)
Definition transaction_5 : Transaction :=
  {| transactionInfo := None; meta := None; body := "unannounced transfer" |}.

(** A handle one channel of which cannot be unsubscribed. *)
Definition handle_4 : SubscriptionType.t :=
  SubscriptionType.make
    {| listener_id := 4; close_fails := false |}
    [ {| subscription_id := 40; unsubscribe_fails := false |};
      {| subscription_id := 41; unsubscribe_fails := true |};
      {| subscription_id := 42; unsubscribe_fails := false |} ].

Definition world_4 : World :=
  {| store := Mutations.setSubscriptions
                [Example.handle 1 false; handle_4; Example.handle 3 false]
                State.initial;
     events := [] |}.

Definition world_5 : World :=
  {| store := Mutations.setSubscriptions
                [Example.handle 1 false; Example.handle 2 false] State.initial;
     events := [] |}.

(** A gateway with two confirmed and two partial transactions. *)
Definition gateway : Env :=
  {| CacheKey_create := Example.fingerprint;
     currentPeer := Normal "http://api-01.example.org:3000";
     createFromRawAddress := fun address => Normal address;
     getAccountTransactions :=
       fun _ _ _ _ => Normal [Example.transaction_1; Example.transaction_2];
     getAccountUnconfirmedTransactions := fun _ _ _ _ => Normal [];
     getAccountPartialTransactions :=
       fun _ _ _ _ => Normal [Example.transaction_1; Example.transaction_2] |}.

(** A store the cache of which has a collection for the confirmed page. *)
Definition world_6 : World :=
  {| store := Mutations.setTransactionCache
                {[ Example.fingerprint "confirmed" Example.address_1 10 None
                   := [CacheEntry.make (Some Example.hash_1) Example.transaction_1] ]}
                State.initial;
     events := [] |}.

End Example2.

(** ** Facts about the primitives and the actions *)

Section JsFacts.
Context {A : Type}.

Lemma array_index_long (key : string) :
  10 < String.length key → array_index key = None.
Proof.
  intros Hlen. destruct key as [|c r]; [done|].
  unfold array_index.
  destruct (Nat.leb_spec (String.length (String c r)) 10) as [Hle|_]; [lia|done].
Qed.

(** A digest of 64 hexadecimal digits is no array index. *)
Lemma digest_is_no_index (h : string) :
  String.length h = 64 → array_index h = None.
Proof. intros Hlength. apply array_index_long. lia. Qed.

Lemma delete_not_index (key : string) (array : Array A) :
  array_index key = None → delete key array = array.
Proof. unfold delete. by intros ->. Qed.

Example delete_index : delete "1" [Some 7; Some 8; Some 9] = [Some 7; None; Some 9].
Proof. reflexivity. Qed.

Example delete_name : delete "length1" [Some 7; Some 8; Some 9] = [Some 7; Some 8; Some 9].
Proof. reflexivity. Qed.

Lemma delete_object_key (array : Array A) : delete object_key array = array.
Proof. by apply delete_not_index. Qed.

Lemma delete_undefined (array : Array A) :
  delete (property_key None) array = array.
Proof. by apply delete_not_index. Qed.

Lemma delete_length (key : string) (array : Array A) :
  length (delete key array) = length array.
Proof.
  unfold delete. destruct (array_index key); [|done].
  case_match; [apply length_insert|done].
Qed.

Context `{EqDecision A}.

(** Searching for a value: the result is that value when an element has
    it, and [undefined] otherwise, also when [undefined] is what was
    looked for and found. *)
Lemma find_value (value : option A) (array : Array A) :
  find (fun x => Normal (bool_decide (x = value))) array
  = Normal (if bool_decide (value ∈ array) then value else None).
Proof.
  induction array as [|x array IH]; cbn [find].
  - by rewrite bool_decide_eq_false_2; [|apply not_elem_of_nil].
  - destruct (decide (x = value)) as [->|Hx].
    + rewrite !bool_decide_eq_true_2; [done|apply list_elem_of_here|done].
    + rewrite (bool_decide_eq_false_2 (x = value)) by done.
      rewrite IH. destruct (decide (value ∈ array)).
      * rewrite !bool_decide_eq_true_2; [done| |done].
        by apply list_elem_of_further.
      * rewrite !bool_decide_eq_false_2; [done| |done].
        apply not_elem_of_cons. by split; [congruence|].
Qed.

Lemma find_value_absent (h : A) (array : Array A) :
  find (fun x => Normal (bool_decide (x = Some h))) array = Normal None →
  Some h ∉ array.
Proof.
  rewrite find_value. destruct (decide (Some h ∈ array)); [|done].
  by rewrite bool_decide_eq_true_2.
Qed.

Lemma find_value_present (h : A) (array : Array A) :
  Some h ∈ array →
  find (fun x => Normal (bool_decide (x = Some h))) array = Normal (Some h).
Proof. intros. rewrite find_value. by rewrite bool_decide_eq_true_2. Qed.

End JsFacts.

(** *** The two ledger actions, case by case *)

Lemma group_variable (group name : string) :
  transactionGroupToStateVariable group = Normal name →
  name = "unconfirmedTransactions" ∨ name = "confirmedTransactions"
  ∨ name = "partialTransactions".
Proof.
  unfold transactionGroupToStateVariable.
  destruct (String.eqb_spec (toLowerCase group) "unconfirmed") as [->|_];
    [intros [= <-]; auto|].
  destruct (String.eqb_spec (toLowerCase group) "confirmed") as [->|_];
    [intros [= <-]; auto|].
  destruct (String.eqb_spec (toLowerCase group) "partial") as [->|_];
    [intros [= <-]; auto|done].
Qed.

Ltac unfold_action :=
  unfold bind, lift, ret, throw, get_state, modify, emit, group_array in *.

Lemma by_name_is_Some name s :
  is_variable name → ∃ arr, Getters.by_name name s = Some arr.
Proof. intros [->|[->| ->]]; eauto. Qed.

(** ADD_TRANSACTION either leaves the store as it is, or appends the
    transaction to the sequence of its group and then, unless reading the
    hash throws, the hash to the index and an entry to the cache. *)
Lemma ADD_TRANSACTION_outcome m w :
  ∃ r s', ADD_TRANSACTION m w = (r, {| store := s'; events := events w |}) ∧
    (s' = store w
     ∨ ∃ message name transactions,
         m = Some message
         ∧ is_variable name
         ∧ Getters.by_name name (store w) = Some transactions
         ∧ let pushed := Mutations.by_name name
                           (transactions ++ [Some (transaction message)]) (store w) in
           (transactionInfo (transaction message) = None
            ∧ State.transactionHashes (store w) = []
            ∧ s' = pushed)
           ∨ (∃ info,
                transactionInfo (transaction message) = Some info
                ∧ (∀ h, TransactionInfo.hash info = Some h →
                        Some h ∉ State.transactionHashes (store w))
                ∧ s' = Mutations.addTransactionToCache
                         (Some (CachePayload.make None (TransactionInfo.hash info)
                                                  (transaction message)))
                         (Mutations.transactionHashes
                            (State.transactionHashes (store w)
                             ++ [TransactionInfo.hash info]) pushed))).
Proof.
  destruct w as [s es]. unfold ADD_TRANSACTION.
  destruct m as [message|]; [|by eauto].
  destruct (falsy (group message)); [by eauto|].
  unfold_action.
  destruct (transactionGroupToStateVariable _) as [name|e] eqn:Hname; [|by eauto].
  apply group_variable in Hname.
  destruct (by_name_is_Some name s Hname) as [transactions Hread].
  cbn [store events].
  unfold transactionInfo_hash.
  destruct (transactionInfo (transaction message)) as [info|] eqn:Hinfo.
  - rewrite find_value.
    destruct (TransactionInfo.hash info) as [h|] eqn:Hh.
    + destruct (decide (Some h ∈ State.transactionHashes s)) as [Hin|Hin];
        [rewrite bool_decide_eq_true_2 by done; by eauto|].
      rewrite bool_decide_eq_false_2 by done.
      cbn [store events]. rewrite Hread.
      eexists _, _. split; [reflexivity|]. right.
      exists message, name, transactions. do 3 (split; [done|]).
      right. exists info. rewrite Hh. do 2 (split; [congruence|]).
      destruct Hname as [->|[->| ->]]; destruct s; injection Hread as <-;
        reflexivity.
    + replace (if bool_decide (None ∈ State.transactionHashes s)
               then None else None) with (@None string)
        by by destruct (bool_decide _).
      cbn [store events]. rewrite Hread.
      eexists _, _. split; [reflexivity|]. right.
      exists message, name, transactions. do 3 (split; [done|]).
      right. exists info. rewrite Hh. do 2 (split; [done|]).
      destruct Hname as [->|[->| ->]]; destruct s; injection Hread as <-;
        reflexivity.
  - destruct (State.transactionHashes s) as [|hash hashes] eqn:Hhashes;
      cbn [find]; [|by eauto].
    cbn [store events]. rewrite Hread.
    eexists _, _. split; [reflexivity|]. right.
    exists message, name, transactions. do 3 (split; [done|]).
    by left.
Qed.

(** REMOVE_TRANSACTION writes to the hash index at most, and there only
    when the hash it was given is in the index. *)
Lemma REMOVE_TRANSACTION_outcome m w :
  ∃ r hashes,
    REMOVE_TRANSACTION m w
    = (r, {| store := Mutations.transactionHashes hashes (store w);
             events := events w |})
    ∧ (hashes = State.transactionHashes (store w)
       ∨ ∃ message h,
           m = Some message
           ∧ meta_hash (Some (transaction message)) = Normal (Some h)
           ∧ Some h ∈ State.transactionHashes (store w)
           ∧ hashes = delete h (State.transactionHashes (store w))).
Proof.
  assert (Heta : ∀ s, Mutations.transactionHashes (State.transactionHashes s) s = s)
    by by intros [].
  destruct w as [s es]. cbn [store events].
  exists (fst (REMOVE_TRANSACTION m {| store := s; events := es |})).
  unfold REMOVE_TRANSACTION.
  destruct m as [message|];
    [|exists (State.transactionHashes s); by rewrite Heta; auto].
  destruct (falsy (group message));
    [exists (State.transactionHashes s); by rewrite Heta; auto|].
  unfold_action.
  destruct (transactionGroupToStateVariable _) as [name|e] eqn:Hname;
    [|exists (State.transactionHashes s); by rewrite Heta; auto].
  apply group_variable in Hname.
  destruct (by_name_is_Some name s Hname) as [transactions Hread].
  destruct (meta_hash (Some (transaction message))) as [hash|e] eqn:Hmeta;
    [|exists (State.transactionHashes s); by rewrite Heta; auto].
  rewrite find_value. cbn [store events]. rewrite Hread.
  destruct (find _ transactions) as [[found|]|e];
    [|exists (State.transactionHashes s); by rewrite Heta; auto..].
  cbn [store events fst]. rewrite delete_object_key.
  eexists. split.
  { f_equal. f_equal.
    destruct Hname as [->|[->| ->]]; destruct s; injection Hread as <-;
      reflexivity. }
  destruct hash as [h|]; [|left; by destruct (bool_decide _)].
  destruct (decide (Some h ∈ State.transactionHashes s)) as [Hin|Hin].
  - rewrite bool_decide_eq_true_2 by done. right. by exists message, h.
  - rewrite bool_decide_eq_false_2 by done. by left.
Qed.

Lemma RESET_TRANSACTIONS_outcome w :
  RESET_TRANSACTIONS w
  = (Normal tt,
     {| store :=
          {| State.initialized := State.initialized (store w);
             State.transactionHashes := State.transactionHashes (store w);
             State.confirmedTransactions := [];
             State.unconfirmedTransactions := [];
             State.partialTransactions := [];
             State.transactionCache := State.transactionCache (store w);
             State.subscriptions := State.subscriptions (store w) |};
        events := events w |}).
Proof. reflexivity. Qed.

(** *** The ledger invariant *)

Lemma ledger_hashes_push name transactions slot s :
  is_variable name →
  Getters.by_name name s = Some transactions →
  ledger_hashes (Mutations.by_name name (transactions ++ [slot]) s)
  ≡ₚ ledger_hashes s ++ omap slot_hash [slot].
Proof.
  intros Hname Hread. unfold ledger_hashes.
  destruct Hname as [->|[->| ->]]; injection Hread as <-;
    cbn -[omap]; rewrite omap_app.
  - rewrite !(assoc_L (++)).
    by rewrite <-(assoc_L (++) _ (omap slot_hash [slot])),
               (Permutation_app_comm (omap slot_hash [slot])), !(assoc_L (++)).
  - by rewrite !(assoc_L (++)).
  - rewrite <-!(assoc_L (++)).
    by rewrite (Permutation_app_comm (omap slot_hash [slot])), <-!(assoc_L (++)).
Qed.

Lemma transactionHashes_push name transactions s :
  State.transactionHashes (Mutations.by_name name transactions s)
  = State.transactionHashes s.
Proof. unfold Mutations.by_name. by repeat case_match. Qed.

Lemma ADD_TRANSACTION_invariant m w :
  ledger_invariant (store w) →
  ledger_invariant (store (snd (ADD_TRANSACTION m w))).
Proof.
  intros [Hknown Hnodup].
  destruct (ADD_TRANSACTION_outcome m w) as (r & s' & -> & Hs'). cbn [snd store].
  destruct Hs' as [->|(message & name & transactions & -> & Hname & Hread & Hs')];
    [done|].
  pose proof (ledger_hashes_push name transactions
                (Some (transaction message)) (store w) Hname Hread) as Hperm.
  destruct Hs' as [(Hinfo & _ & ->)|(info & Hinfo & Hfresh & ->)].
  - cbn in Hperm. rewrite Hinfo in Hperm. cbn in Hperm.
    rewrite (right_id_L [] (++)) in Hperm.
    split.
    + intros h. rewrite Hperm, transactionHashes_push. apply Hknown.
    + by rewrite Hperm.
  - cbn in Hperm. rewrite Hinfo in Hperm.
    unfold ledger_invariant.
    change (ledger_hashes (Mutations.addTransactionToCache ?p ?s))
      with (ledger_hashes s).
    change (ledger_hashes (Mutations.transactionHashes ?hs ?s))
      with (ledger_hashes s).
    change (State.transactionHashes (Mutations.addTransactionToCache ?p
              (Mutations.transactionHashes ?hs ?s))) with hs.
    split.
    + intros h. rewrite Hperm, !elem_of_app. intros [Hold|Hnew]; [by auto|].
      right. destruct (TransactionInfo.hash info) as [h'|];
        [|by apply elem_of_nil in Hnew].
      apply list_elem_of_singleton in Hnew as ->. by apply list_elem_of_singleton.
    + rewrite Hperm. apply NoDup_app. split; [done|]. split.
      * intros h Hold Hnew. destruct (TransactionInfo.hash info) as [h'|] eqn:Hh;
          [|set_solver].
        apply list_elem_of_singleton in Hnew as ->.
        by eapply Hfresh, Hknown.
      * destruct (TransactionInfo.hash info); [apply NoDup_singleton|apply NoDup_nil_2].
Qed.

Lemma REMOVE_TRANSACTION_invariant m w :
  removes_a_digest (Remove m) →
  ledger_invariant (store w) →
  ledger_invariant (store (snd (REMOVE_TRANSACTION m w))).
Proof.
  intros Hdigest Hinv.
  destruct (REMOVE_TRANSACTION_outcome m w) as (r & hashes & -> & Hhashes).
  cbn [snd store].
  assert (hashes = State.transactionHashes (store w)) as ->.
  { destruct Hhashes as [->|(message & h & -> & Hmeta & _ & ->)]; [done|].
    apply delete_not_index. by apply Hdigest. }
  by destruct (store w).
Qed.

Lemma RESET_TRANSACTIONS_invariant w :
  ledger_invariant (store (snd (RESET_TRANSACTIONS w))).
Proof.
  rewrite RESET_TRANSACTIONS_outcome. split; [|apply NoDup_nil_2].
  intros h Hh. cbn in Hh. set_solver.
Qed.

Lemma initial_invariant : ledger_invariant State.initial.
Proof. split; [|apply NoDup_nil_2]. intros h Hh. cbn in Hh. set_solver. Qed.

Lemma run_snoc operations operation w :
  run (operations ++ [operation]) w = after operation (run operations w).
Proof. unfold run. by rewrite foldl_app. Qed.

Create HintDb ledger discriminated.
#[local] Hint Resolve initial_invariant ADD_TRANSACTION_invariant
  REMOVE_TRANSACTION_invariant RESET_TRANSACTIONS_invariant : ledger.

Lemma after_invariant operation w :
  removes_a_digest operation →
  ledger_invariant (store w) →
  ledger_invariant (store (after operation w)).
Proof.
  destruct operation as [m|m|]; unfold after; cbn [perform]; auto with ledger.
Qed.

(** *** Adding twice *)

Lemma ADD_TRANSACTION_rejected message w :
  falsy (group message) = true ∨ unknown_group (group message) →
  ∃ text, ADD_TRANSACTION (Some message) w = (Throw (Error text), w).
Proof.
  unfold ADD_TRANSACTION. intros Hbad.
  destruct (falsy (group message)) eqn:Hfalsy; [by eauto|].
  destruct Hbad as [|Hunknown]; [done|].
  destruct (group message) as [g|]; [|done]. cbn in Hunknown |- *.
  unfold_action. unfold transactionGroupToStateVariable.
  unfold is_group in Hunknown.
  destruct (String.eqb (toLowerCase g) "unconfirmed"),
           (String.eqb (toLowerCase g) "confirmed"),
           (String.eqb (toLowerCase g) "partial"); try done.
  by eauto.
Qed.

Lemma ADD_TRANSACTION_known message info h w :
  transactionInfo (transaction message) = Some info →
  TransactionInfo.hash info = Some h →
  Some h ∈ State.transactionHashes (store w) →
  snd (ADD_TRANSACTION (Some message) w) = w.
Proof.
  intros Hinfo Hh Hin.
  destruct (ADD_TRANSACTION_outcome (Some message) w) as (r & s' & -> & Hs').
  cbn [snd]. destruct w as [s es]. cbn [store events] in *. f_equal.
  destruct Hs' as [->|(message' & name & transactions & [= <-] & _ & _ & Hs')];
    [done|].
  destruct Hs' as [(Hnone & _)|(info' & Hinfo' & Hfresh & _)]; [congruence|].
  rewrite Hinfo in Hinfo'. injection Hinfo' as <-. by destruct (Hfresh h).
Qed.

Lemma ADD_TRANSACTION_fresh message name transactions info w :
  transactionGroupToStateVariable (default "" (group message)) = Normal name →
  falsy (group message) = false →
  Getters.by_name name (store w) = Some transactions →
  transactionInfo (transaction message) = Some info →
  TransactionInfo.hash info ∉ State.transactionHashes (store w) →
  ADD_TRANSACTION (Some message) w
  = (Normal tt,
     {| store :=
          Mutations.addTransactionToCache
            (Some (CachePayload.make None (TransactionInfo.hash info)
                                     (transaction message)))
            (Mutations.transactionHashes
               (State.transactionHashes (store w) ++ [TransactionInfo.hash info])
               (Mutations.by_name name
                  (transactions ++ [Some (transaction message)]) (store w)));
        events := events w |}).
Proof.
  intros Hname Hfalsy Hread Hinfo Hfresh. destruct w as [s es].
  unfold ADD_TRANSACTION. rewrite Hfalsy. unfold_action. rewrite Hname.
  pose proof (group_variable _ _ Hname) as Hvar.
  unfold transactionInfo_hash. rewrite Hinfo, find_value.
  rewrite bool_decide_eq_false_2 by done.
  cbn [store events] in *. rewrite Hread. f_equal. f_equal.
  destruct Hvar as [->|[->| ->]]; destruct s; injection Hread as <-; reflexivity.
Qed.

(** Adding a transaction that has a hash a second time changes nothing. *)
Lemma ADD_TRANSACTION_idempotent message info h w :
  transactionInfo (transaction message) = Some info →
  TransactionInfo.hash info = Some h →
  snd (ADD_TRANSACTION (Some message) (snd (ADD_TRANSACTION (Some message) w)))
  = snd (ADD_TRANSACTION (Some message) w).
Proof.
  intros Hinfo Hh.
  destruct (ADD_TRANSACTION_outcome (Some message) w) as (r & s' & Hadd & Hs').
  destruct Hs' as [->|(message' & name & transactions & [= <-] & _ & _ & Hs')].
  - rewrite Hadd. cbn [snd].
    replace {| store := store w; events := events w |} with w by by destruct w.
    rewrite Hadd. by destruct w.
  - destruct Hs' as [(Hnone & _)|(info' & Hinfo' & Hfresh & ->)]; [congruence|].
    rewrite Hinfo in Hinfo'. injection Hinfo' as <-.
    rewrite Hadd. cbn [snd].
    apply (ADD_TRANSACTION_known message info h); [done..|].
    cbn. rewrite Hh. set_solver.
Qed.

(** *** What a page fetch leaves of the cache *)

Lemma cache_push name transactions s :
  State.transactionCache (Mutations.by_name name transactions s)
  = State.transactionCache s.
Proof. unfold Mutations.by_name. by repeat case_match. Qed.

Lemma addTransactionToCache_other hash transaction s key :
  key ≠ "undefined" →
  State.transactionCache
    (Mutations.addTransactionToCache
       (Some (CachePayload.make None hash transaction)) s) !! key
  = State.transactionCache s !! key.
Proof.
  intros Hkey. cbn.
  rewrite lookup_alter_ne by done.
  destruct (State.transactionCache s !! "undefined"); [done|].
  by rewrite lookup_insert_ne.
Qed.

Lemma ADD_TRANSACTION_framed key m w :
  framed key w (snd (ADD_TRANSACTION m w)).
Proof.
  destruct (ADD_TRANSACTION_outcome m w) as (r & s' & -> & Hs').
  split; [done|]. intros Hkey. cbn [snd store].
  destruct Hs' as [->|(message & name & transactions & _ & _ & _ & Hs')]; [done|].
  destruct Hs' as [(_ & _ & ->)|(info & _ & _ & ->)].
  - by rewrite cache_push.
  - rewrite addTransactionToCache_other by done.
    cbn [Mutations.transactionHashes State.transactionCache].
    by rewrite cache_push.
Qed.

Lemma for_each_framed {A} key (f : A → Action unit) l w :
  (∀ x w, framed key w (snd (f x w))) →
  framed key w (snd (for_each f l w)).
Proof.
  intros Hf. revert w. induction l as [|x l IH]; intros w; [done|].
  cbn [for_each]. unfold bind.
  pose proof (Hf x w) as [Hev Hcache].
  destruct (f x w) as [[[]|e] w1]; cbn [snd] in *; [|done].
  destruct (IH w1) as [Hev' Hcache']. split; [congruence|].
  intros Hkey. by rewrite Hcache', Hcache.
Qed.

Section Fetch.
Variable env : Env.

Lemma group_or_default_cases group :
  group_or_default group = "partial" ∨ group_or_default group = "unconfirmed"
  ∨ group_or_default group = "confirmed".
Proof.
  destruct group as [g|]; [|by auto]. unfold group_or_default, is_group.
  destruct (falsy (Some g)); [by auto|]. cbn [orb].
  destruct (String.eqb_spec g "partial") as [->|_]; [by auto|].
  destruct (String.eqb_spec g "unconfirmed") as [->|_]; [by auto|].
  destruct (String.eqb_spec g "confirmed") as [->|_]; by auto.
Qed.

Lemma record_heights_unassigned transactions :
  record_heights None transactions = Normal None ∧ transactions = []
  ∨ ∃ e, record_heights None transactions = Throw e.
Proof. destruct transactions; [by left|right; by eauto]. Qed.

(** On a cache miss the request is prepared and sent, and whatever comes
    of it the action logs an error and returns [false]; the cache has no
    collection under the key of the query afterwards either. *)
Lemma REST_FETCH_TRANSACTIONS_miss query address w group key :
  group = group_or_default (Query.group query) →
  key = CacheKey_create env group address (Query.pageSize query) (Query.id query) →
  Query.address query = Some address →
  String.length address = 40 →
  State.transactionCache (store w) !! key = None →
  ∃ s' trace text,
    REST_FETCH_TRANSACTIONS env query w
    = (Normal ReturnFalse,
       {| store := s';
          events := events w ++ [CacheRead key] ++ trace ++ [ConsoleError text] |})
    ∧ (key ≠ "undefined" → State.transactionCache s' !! key = None)
    ∧ (∀ peer addressObject,
         currentPeer env = Normal peer →
         createFromRawAddress env address = Normal addressObject →
         trace = [ServiceCall group address (Query.pageSize query) (Query.id query)]).
Proof.
  intros Hgroup Hkey Haddress Hlength Hmiss.
  unfold REST_FETCH_TRANSACTIONS. rewrite Haddress.
  assert (falsy (Some address) = false) as ->.
  { destruct address; [done|reflexivity]. }
  rewrite Hlength. cbn [Nat.eqb negb orb].
  rewrite <-Hgroup, <-Hkey.
  unfold bind at 1. unfold emit at 1. unfold bind at 1. unfold get_state at 1.
  cbn [store events]. rewrite Hmiss.
  unfold try_catch.
  set (w0 := {| store := store w; events := events w ++ [CacheRead key] |}).
  unfold bind at 1, lift at 1.
  destruct (currentPeer env) as [peer|e].
  2:{ unfold bind, emit, ret, w0. cbn [store events].
      eexists (store w), [], _.
      split; [rewrite <-!(assoc_L (++)); reflexivity|]. by split. }
  unfold bind at 1, lift at 1.
  destruct (createFromRawAddress env address) as [addressObject|e].
  2:{ unfold bind, emit, ret, w0. cbn [store events].
      eexists (store w), [], _.
      split; [rewrite <-!(assoc_L (++)); reflexivity|]. by split. }
  set (call := ServiceCall group address (Query.pageSize query) (Query.id query)).
  set (add := λ transaction : Transaction,
         ADD_TRANSACTION (Some {| group := Some group; cacheKey := Some key;
                                  transaction := transaction |})).
  assert (Hstore : ∀ transactions w1,
    ∃ w2, for_each add transactions w1 = (fst (for_each add transactions w1), w2)
          ∧ framed key w1 w2).
  { intros transactions w1. exists (snd (for_each add transactions w1)).
    split; [by destruct (for_each _ _ _)|].
    apply for_each_framed. intros x w'. apply ADD_TRANSACTION_framed. }
  enough (Hsent : ∃ s' text,
    (let (c, w') :=
       (let* fetched :=
          (if "confirmed" =? group
           then
             let* transactions :=
               request call (getAccountTransactions env peer addressObject
                               (Query.pageSize query) (Query.id query)) in
             let* blockHeights := lift (record_heights None transactions) in
             ret (transactions, blockHeights)
           else if "unconfirmed" =? group
           then
             let* transactions :=
               request call (getAccountUnconfirmedTransactions env peer addressObject
                               (Query.pageSize query) (Query.id query)) in
             ret (transactions, None)
           else if "partial" =? group
           then
             let* transactions :=
               request call (getAccountPartialTransactions env peer addressObject
                               (Query.pageSize query) (Query.id query)) in
             ret (transactions, None)
           else throw (TypeError "Cannot read property 'map' of undefined")) in
        let* _ := for_each add fetched.1 in
        let* heights :=
          match fetched.2 with
          | Some heights => ret heights
          | None => throw (TypeError "Cannot read property 'length' of undefined")
          end in
        let* _ := (if (length heights =? 0)%nat then ret ()
                   else emit (DispatchedBlocks heights)) in
        ret (ReturnTransactions fetched.1)) w0 in
     match c with
     | Normal a => (Normal a, w')
     | Throw e =>
         (let* _ := emit (ConsoleError
                            ("An error happened while trying to fetch transactions: "
                             +:+ describe e)) in
          ret ReturnFalse) w'
     end)
    = (Normal ReturnFalse,
       {| store := s';
          events := events w ++ [CacheRead key] ++ [call] ++ [ConsoleError text] |})
    ∧ (key ≠ "undefined" → State.transactionCache s' !! key = None)).
  { destruct Hsent as (s' & text & Hsent & Hcache).
    exists s', [call], text. by rewrite Hsent. }
  assert (Hresponse : ∀ response,
    ∃ s' text,
      (let (c, w') :=
         (let* fetched :=
            (let* transactions := request call response in
             ret (transactions, @None (list N))) in
          let* _ := for_each add fetched.1 in
          let* heights :=
            match fetched.2 with
            | Some heights => ret heights
            | None => throw (TypeError "Cannot read property 'length' of undefined")
            end in
          let* _ := (if (length heights =? 0)%nat then ret ()
                     else emit (DispatchedBlocks heights)) in
          ret (ReturnTransactions fetched.1)) w0 in
       match c with
       | Normal a => (Normal a, w')
       | Throw e =>
           (let* _ := emit (ConsoleError
                              ("An error happened while trying to fetch transactions: "
                               +:+ describe e)) in
            ret ReturnFalse) w'
       end)
      = (Normal ReturnFalse,
         {| store := s';
            events := events w ++ [CacheRead key] ++ [call] ++ [ConsoleError text] |})
      ∧ (key ≠ "undefined" → State.transactionCache s' !! key = None)).
  { intros [transactions|e]; unfold request, bind, emit, lift, ret, throw;
      cbn [store events fst snd w0].
    - destruct (Hstore transactions
                  {| store := store w; events := (events w ++ [CacheRead key]) ++ [call] |})
        as (w2 & -> & Hev & Hcache). cbn [store events] in *.
      destruct (for_each add transactions _).1 as [[]|e];
        (eexists _, _; split;
         [rewrite Hev, <-!(assoc_L (++)); reflexivity
         |intros Hne; by rewrite Hcache]).
    - eexists _, _. split; [rewrite <-!(assoc_L (++)); reflexivity|by intros _]. }
  destruct (group_or_default_cases (Query.group query)) as [Hg|[Hg|Hg]];
    rewrite Hg in Hgroup; subst group; cbn [String.eqb Ascii.eqb Bool.eqb].
  - apply Hresponse.
  - apply Hresponse.
  - destruct (getAccountTransactions env peer addressObject (Query.pageSize query)
                (Query.id query)) as [[|transaction transactions]|e].
    + exact (Hresponse (Normal [])).
    + unfold request, bind, emit, lift, ret, throw, w0.
      cbn [record_heights record_height store events].
      eexists _, _. split; [rewrite <-!(assoc_L (++)); reflexivity|by intros _].
    + exact (Hresponse (Throw e)).
Qed.

Lemma REST_FETCH_TRANSACTIONS_hit query address collection w :
  let key := CacheKey_create env (group_or_default (Query.group query)) address
               (Query.pageSize query) (Query.id query) in
  Query.address query = Some address →
  String.length address = 40 →
  State.transactionCache (store w) !! key = Some collection →
  REST_FETCH_TRANSACTIONS env query w
  = (Normal (ReturnCached collection),
     {| store := store w; events := events w ++ [CacheRead key] |}).
Proof.
  intros key Haddress Hlength Hhit.
  unfold REST_FETCH_TRANSACTIONS. rewrite Haddress.
  assert (falsy (Some address) = false) as ->.
  { destruct address; [done|reflexivity]. }
  rewrite Hlength. cbn [Nat.eqb negb orb]. fold key.
  unfold bind, emit, get_state, ret. cbn [store events]. by rewrite Hhit.
Qed.

Lemma REST_FETCH_TRANSACTIONS_guard query w :
  (∀ address, Query.address query = Some address → String.length address ≠ 40) →
  REST_FETCH_TRANSACTIONS env query w = (Normal ReturnUndefined, w).
Proof.
  intros Hbad. unfold REST_FETCH_TRANSACTIONS.
  destruct (Query.address query) as [address|]; [|done].
  specialize (Hbad address eq_refl).
  destruct (Nat.eqb_spec (String.length address) 40) as [|_]; [done|].
  by rewrite orb_true_r.
Qed.

(** The action resolves in every case: nothing is thrown to the caller. *)
Lemma REST_FETCH_TRANSACTIONS_resolves query w :
  ∃ result w', REST_FETCH_TRANSACTIONS env query w = (Normal result, w').
Proof.
  destruct (Query.address query) as [address|] eqn:Haddress.
  - destruct (decide (String.length address = 40)) as [Hlength|Hlength].
    + destruct (State.transactionCache (store w)
                !! CacheKey_create env (group_or_default (Query.group query))
                     address (Query.pageSize query) (Query.id query))
        as [collection|] eqn:Hcache.
      * erewrite REST_FETCH_TRANSACTIONS_hit by done. by eauto.
      * edestruct REST_FETCH_TRANSACTIONS_miss as (s' & trace & text & -> & _);
          by eauto.
    + rewrite REST_FETCH_TRANSACTIONS_guard; [by eauto|]. congruence.
  - rewrite REST_FETCH_TRANSACTIONS_guard; [by eauto|]. congruence.
Qed.

End Fetch.

(** *** Tearing the subscriptions down *)

Lemma for_each_app {A} (f : A → Action unit) l1 l2 w :
  for_each f (l1 ++ l2) w
  = match for_each f l1 w with
    | (Normal _, w') => for_each f l2 w'
    | (Throw e, w') => (Throw e, w')
    end.
Proof.
  revert w. induction l1 as [|x l1 IH]; intros w; [done|].
  cbn [for_each app]. unfold bind.
  destruct (f x w) as [[[]|e] w']; [apply IH|done].
Qed.

Lemma for_each_unsubscribe subs w :
  Forall (λ sub, unsubscribe_fails sub = false) subs →
  for_each unsubscribe subs w
  = (Normal tt,
     {| store := store w;
        events := events w ++ map (λ sub, Unsubscribed (subscription_id sub)) subs |}).
Proof.
  intros Hsubs. revert w. induction Hsubs as [|sub subs Hsub _ IH]; intros w.
  - cbn. rewrite (right_id_L [] (++)). by destruct w.
  - cbn [for_each map]. unfold bind, unsubscribe. rewrite Hsub. cbn [emit].
    rewrite IH. cbn [store events]. by rewrite <-(assoc_L (++)).
Qed.

Lemma tear_down_sound handle w :
  sound handle →
  (let* _ := for_each unsubscribe (SubscriptionType.subscriptions handle) in
   close (SubscriptionType.listener handle)) w
  = (Normal tt, {| store := store w; events := events w ++ teardown handle |}).
Proof.
  intros [Hclose Hsubs]. unfold bind. rewrite for_each_unsubscribe by done.
  unfold close, teardown. rewrite Hclose. unfold emit. cbn [store events].
  by rewrite <-(assoc_L (++)).
Qed.

Lemma tear_down_all handles w :
  Forall sound handles →
  for_each (λ subscription,
              let* _ := for_each unsubscribe
                          (SubscriptionType.subscriptions subscription) in
              close (SubscriptionType.listener subscription)) handles w
  = (Normal tt,
     {| store := store w; events := events w ++ flat_map teardown handles |}).
Proof.
  intros Hall. revert w. induction Hall as [|handle handles Hhandle _ IH]; intros w.
  - cbn. rewrite (right_id_L [] (++)). by destruct w.
  - cbn [for_each flat_map]. unfold bind at 1.
    rewrite tear_down_sound by done. rewrite IH. cbn [store events].
    by rewrite <-(assoc_L (++)).
Qed.

Lemma UNSUBSCRIBE_all_sound w :
  Forall sound (State.subscriptions (store w)) →
  UNSUBSCRIBE w
  = (Normal tt,
     {| store := Mutations.setSubscriptions [] (store w);
        events := events w ++ flat_map teardown (State.subscriptions (store w)) |}).
Proof.
  intros Hall. unfold UNSUBSCRIBE, bind at 1, get_state, Getters.getSubscriptions.
  unfold bind. by rewrite tear_down_all.
Qed.

(** *** Validation *)

Lemma REMOVE_TRANSACTION_rejected message w :
  falsy (group message) = true ∨ unknown_group (group message) →
  ∃ text, REMOVE_TRANSACTION (Some message) w = (Throw (Error text), w).
Proof.
  unfold REMOVE_TRANSACTION. intros Hbad.
  destruct (falsy (group message)) eqn:Hfalsy; [by eauto|].
  destruct Hbad as [|Hunknown]; [done|].
  destruct (group message) as [g|]; [|done]. cbn in Hunknown |- *.
  unfold_action. unfold transactionGroupToStateVariable.
  unfold is_group in Hunknown.
  destruct (String.eqb (toLowerCase g) "unconfirmed"),
           (String.eqb (toLowerCase g) "confirmed"),
           (String.eqb (toLowerCase g) "partial"); try done.
  by eauto.
Qed.

Lemma initialize_guard address w :
  falsy address = true → initialize address w = (Normal tt, w).
Proof. unfold initialize, Lock.initialize. by intros ->. Qed.

Lemma group_or_default_unknown g :
  is_group g = false → group_or_default (Some g) = "confirmed".
Proof. unfold group_or_default. intros ->. by rewrite orb_true_r. Qed.

Lemma occurrences_absent {A} `{EqDecision A} (x : A) l :
  x ∉ l → occurrences x l = 0.
Proof.
  unfold occurrences. induction l as [|y l IH]; [done|]. intros Hx.
  rewrite filter_cons_False by set_solver. apply IH. set_solver.
Qed.

Lemma occurrences_app {A} `{EqDecision A} (x : A) l1 l2 :
  occurrences x (l1 ++ l2) = occurrences x l1 + occurrences x l2.
Proof. unfold occurrences. by rewrite filter_app, length_app. Qed.

Lemma occurrences_singleton {A} `{EqDecision A} (x : A) :
  occurrences x [x] = 1.
Proof. unfold occurrences. by rewrite filter_cons_True. Qed.

Global Instance occurrences_Permutation {A} `{EqDecision A} (x : A) :
  Proper ((≡ₚ) ==> (=)) (occurrences x).
Proof. intros l1 l2 Hperm. unfold occurrences. by rewrite Hperm. Qed.

(** A transaction with a hash the index does not know yet is in the
    ledger once, and its hash in the index once, after it was added twice. *)
Lemma ADD_TRANSACTION_twice_new message name info h w :
  transactionGroupToStateVariable (default "" (group message)) = Normal name →
  falsy (group message) = false →
  transactionInfo (transaction message) = Some info →
  TransactionInfo.hash info = Some h →
  ledger_invariant (store w) →
  Some h ∉ State.transactionHashes (store w) →
  let w' := after (Add (Some message)) (after (Add (Some message)) w) in
  occurrences h (ledger_hashes (store w')) = 1
  ∧ occurrences (Some h) (State.transactionHashes (store w')) = 1.
Proof.
  intros Hname Hfalsy Hinfo Hh [Hknown _] Hfresh w'. unfold w', after. cbn [perform].
  rewrite (ADD_TRANSACTION_idempotent message info h) by done.
  pose proof (group_variable _ _ Hname) as Hvar.
  destruct (by_name_is_Some name (store w) Hvar) as [transactions Hread].
  rewrite (ADD_TRANSACTION_fresh message name transactions info) by (rewrite ?Hh; done).
  cbn [snd store].
  change (ledger_hashes (Mutations.addTransactionToCache ?p
            (Mutations.transactionHashes ?hs ?s))) with (ledger_hashes s).
  change (State.transactionHashes (Mutations.addTransactionToCache ?p
            (Mutations.transactionHashes ?hs ?s))) with hs.
  rewrite ledger_hashes_push by done. cbn [omap list_omap slot_hash].
  rewrite Hinfo, Hh. rewrite !occurrences_app, !occurrences_singleton.
  rewrite !occurrences_absent; [done|done|]. intros Hin. by apply Hfresh, Hknown.
Qed.

(** ** The claims *)

(** C1. The claim: on a cache miss with a 40-character address
    REST_FETCH_TRANSACTIONS returns the page the gateway answered with,
    returns [false] after logging when the request fails, and throws in
    neither case. The code: [blockHeights] is declared and never assigned,
    so the block after the request always throws a TypeError of its own,
    which the [catch] logs: the action returns [false] on every miss, also
    when the gateway answered with a page (an empty one included). *)
Theorem REST_FETCH_TRANSACTIONS_returns_false_on_every_miss
    env query address w :
  Query.address query = Some address →
  String.length address = 40 →
  State.transactionCache (store w)
    !! CacheKey_create env (group_or_default (Query.group query)) address
         (Query.pageSize query) (Query.id query) = None →
  fst (REST_FETCH_TRANSACTIONS env query w) = Normal ReturnFalse.
Proof.
  intros Haddress Hlength Hmiss.
  edestruct REST_FETCH_TRANSACTIONS_miss as (s' & trace & text & -> & _);
    by eauto.
Qed.

Lemma REST_FETCH_TRANSACTIONS_returns_false_on_every_miss_witness :
  getAccountUnconfirmedTransactions Example.env
    "http://api-01.example.org:3000" Example.address_1 10 None
  = Normal [Example.transaction_1]
  ∧ fst (REST_FETCH_TRANSACTIONS Example.env (Example.query "unconfirmed")
           initial_world) = Normal ReturnFalse.
Proof.
  split; [reflexivity|].
  apply (REST_FETCH_TRANSACTIONS_returns_false_on_every_miss
           Example.env (Example.query "unconfirmed") Example.address_1 initial_world);
    reflexivity.
Defined.



(** C3. The claim: RESET_TRANSACTIONS clears the three sequences and every
    hash of theirs in the hash index, and [allTransactions] is empty
    afterwards. The code: the three sequences are emptied and
    [allTransactions] is empty, but [transactionHashes] is left as it was,
    in every state; the hash of the confirmed transaction of the example is
    still in the index after the reset. *)
Theorem RESET_TRANSACTIONS_keeps_transactionHashes :
  (∀ w, let state := store (snd (RESET_TRANSACTIONS w)) in
        State.partialTransactions state = []
        ∧ State.unconfirmedTransactions state = []
        ∧ State.confirmedTransactions state = []
        ∧ Getters.allTransactions state = []
        ∧ State.transactionHashes state = State.transactionHashes (store w))
  ∧ ledger_hashes (store Example.world_1) = [Example.hash_1]
  ∧ State.transactionHashes (store (snd (RESET_TRANSACTIONS Example.world_1)))
    = [Some Example.hash_1].
Proof.
  split; [|done]. intros w. by rewrite RESET_TRANSACTIONS_outcome.
Qed.

(** C4. The claim: REMOVE_TRANSACTION takes the transaction with the given
    hash out of the sequence of its group and the hash out of the hash
    index, and does nothing when the group has no such transaction. The
    code: the found elements, not their positions, are used as the
    property names of the two [delete]s, so no sequence ever changes; a
    transaction that is found stays where it is, with its hash in the
    index, and for a transaction without [meta] the action throws. *)
Theorem REMOVE_TRANSACTION_removes_nothing :
  (∀ m w, let state := store (snd (REMOVE_TRANSACTION m w)) in
          State.partialTransactions state = State.partialTransactions (store w)
          ∧ State.unconfirmedTransactions state = State.unconfirmedTransactions (store w)
          ∧ State.confirmedTransactions state = State.confirmedTransactions (store w))
  ∧ REMOVE_TRANSACTION (Example.message "confirmed" Example.transaction_3)
      Example.world_1 = (Normal tt, Example.world_1)
  ∧ (let w := after (Add (Example.message "confirmed" Example.transaction_1))
                initial_world in
     REMOVE_TRANSACTION (Example.message "confirmed" Example.transaction_1) w
     = (Throw (TypeError "Cannot read property 'hash' of undefined"), w)).
Proof.
  split; [|done]. intros m w.
  by destruct (REMOVE_TRANSACTION_outcome m w) as (r & hashes & -> & _).
Qed.

(** C5, as stated, fails: given a group tag that is none of the three,
    ADD_TRANSACTION throws an Error to its caller. *)
Lemma ADD_TRANSACTION_throws_on_unknown_group :
  ADD_TRANSACTION (Example.message "bogus" Example.transaction_1) initial_world
  = (Throw (Error "Unknown transaction group 'bogus'."), initial_world).
Proof. reflexivity. Qed.

(** C5, amended. ADD_TRANSACTION and REMOVE_TRANSACTION throw an Error,
    and leave the store as it is, when the group tag is missing, empty or
    (whatever its case) none of the three. REST_FETCH_TRANSACTIONS never
    throws: it reads a missing or unknown group tag as 'confirmed' and
    returns at once, the world untouched, when the address is missing or
    empty; so does initialize. *)
Theorem validation_failures env w message query :
  (falsy (group message) = true ∨ unknown_group (group message) →
   (∃ text, ADD_TRANSACTION (Some message) w = (Throw (Error text), w))
   ∧ (∃ text, REMOVE_TRANSACTION (Some message) w = (Throw (Error text), w)))
  ∧ (∃ result w', REST_FETCH_TRANSACTIONS env query w = (Normal result, w'))
  ∧ ((∀ g, Query.group query = Some g → is_group g = false) →
     REST_FETCH_TRANSACTIONS env query w
     = REST_FETCH_TRANSACTIONS env
         (Query.make (Some "confirmed") (Query.address query)
                     (Query.pageSize query) (Query.id query)) w)
  ∧ (falsy (Query.address query) = true →
     REST_FETCH_TRANSACTIONS env query w = (Normal ReturnUndefined, w))
  ∧ (∀ address, falsy address = true → initialize address w = (Normal tt, w)).
Proof.
  split; [|split; [|split; [|split]]].
  - intros Hbad. split.
    + by apply ADD_TRANSACTION_rejected.
    + by apply REMOVE_TRANSACTION_rejected.
  - apply REST_FETCH_TRANSACTIONS_resolves.
  - intros Hunknown. unfold REST_FETCH_TRANSACTIONS. cbn [Query.group Query.address Query.pageSize Query.id].
    replace (group_or_default (Query.group query)) with "confirmed"; [done|].
    destruct (Query.group query) as [g|]; [|done].
    symmetry. by apply group_or_default_unknown, Hunknown.
  - intros Hempty. apply REST_FETCH_TRANSACTIONS_guard.
    intros address Haddress. rewrite Haddress in Hempty.
    destruct address; [done|discriminate Hempty].
  - intros address. apply initialize_guard.
Qed.

Lemma validation_failures_witness :
  unknown_group (Some "bogus")
  ∧ (∃ text, ADD_TRANSACTION (Example.message "bogus" Example.transaction_1)
               initial_world = (Throw (Error text), initial_world))
  ∧ REST_FETCH_TRANSACTIONS Example.env
      (Query.make (Some "bogus") (Some "") 10 None) initial_world
    = (Normal ReturnUndefined, initial_world).
Proof.
  pose proof (validation_failures Example.env initial_world
                {| group := Some "bogus"; cacheKey := None;
                   transaction := Example.transaction_1 |}
                (Query.make (Some "bogus") (Some "") 10 None))
    as (Hthrow & _ & _ & Hguard & _).
  split; [reflexivity|]. split.
  - apply Hthrow. right. reflexivity.
  - apply Hguard. reflexivity.
Defined.

(** C6. The claim: in every state, after ADD_TRANSACTION ran twice with a
    transaction, the ledger has one entry for it and the hash index its
    hash once. The code: the second call changes nothing, and a
    transaction whose hash the index does not know is registered once
    (ADD_TRANSACTION_idempotent, ADD_TRANSACTION_twice_new); but
    RESET_TRANSACTIONS leaves the hashes in the index, and a transaction
    that was in the ledger before a reset is refused afterwards: added
    twice, it is in no sequence at all. *)
Theorem ADD_TRANSACTION_twice_after_reset :
  let add := Add (Example.message "confirmed" Example.transaction_1) in
  let before := run [add; Reset] initial_world in
  let w := run [add; add] before in
  fst (perform add before) = Normal tt
  ∧ Getters.allTransactions (store w) = []
  ∧ occurrences Example.hash_1 (ledger_hashes (store w)) = 0
  ∧ State.transactionHashes (store w) = [Some Example.hash_1].
Proof. done. Qed.

(** C7. Whatever operations ran, in whatever order, [allTransactions] is
    the partial sequence, then the unconfirmed one, then the confirmed
    one. *)
Theorem allTransactions_order (operations : list Operation) (w : World) :
  let state := store (run operations w) in
  Getters.allTransactions state
  = State.partialTransactions state ++ State.unconfirmedTransactions state
    ++ State.confirmedTransactions state.
Proof.
  intros state. unfold Getters.allTransactions, concat. cbn [foldl app].
  by rewrite (assoc_L (++)).
Qed.

(** The transaction added last, to the partial group, comes first. *)
Example allTransactions_partial_first :
  Getters.allTransactions
    (store (run [Add (Example.message "confirmed" Example.transaction_1);
                 Add (Example.message "partial" Example.transaction_2)]
                initial_world))
  = [Some Example.transaction_2; Some Example.transaction_1].
Proof. reflexivity. Qed.

(** C8. The claim: a second REST_FETCH_TRANSACTIONS with the arguments of
    a call that fetched a page is served from the cache, without a request
    to the gateway. The code: ADD_TRANSACTION does not pass the cache key
    it was given on to addTransactionToCache, which files every
    transaction under the property name "undefined"; the cache still has
    nothing under the key of the query after the first call, and the
    second call requests the page again (and returns [false], as every
    miss does). *)
Theorem REST_FETCH_TRANSACTIONS_fetches_again
    env query address peer addressObject w :
  let group := group_or_default (Query.group query) in
  let key := CacheKey_create env group address (Query.pageSize query) (Query.id query) in
  Query.address query = Some address →
  String.length address = 40 →
  currentPeer env = Normal peer →
  createFromRawAddress env address = Normal addressObject →
  key ≠ "undefined" →
  State.transactionCache (store w) !! key = None →
  let first := REST_FETCH_TRANSACTIONS env query w in
  let second := REST_FETCH_TRANSACTIONS env query (snd first) in
  fst second = Normal ReturnFalse
  ∧ State.transactionCache (store (snd first)) !! key = None
  ∧ service_calls (snd first) = S (service_calls w)
  ∧ service_calls (snd second) = S (S (service_calls w)).
Proof.
  intros group key Haddress Hlength Hpeer Hobject Hkey Hmiss first second.
  destruct (REST_FETCH_TRANSACTIONS_miss env query address w group key)
    as (s1 & trace1 & text1 & Hfirst & Hmiss1 & Htrace1); [done..|].
  specialize (Hmiss1 Hkey). rewrite (Htrace1 _ _ Hpeer Hobject) in Hfirst.
  assert (Hcalls : ∀ es text,
    length (List.filter is_service_call
              (es ++ [CacheRead key]
               ++ [ServiceCall group address (Query.pageSize query) (Query.id query)]
               ++ [ConsoleError text]))
    = S (length (List.filter is_service_call es))).
  { intros es text. rewrite List.filter_app, length_app. cbn. lia. }
  destruct (REST_FETCH_TRANSACTIONS_miss env query address (snd first) group key)
    as (s2 & trace2 & text2 & Hsecond & _ & Htrace2); [done..| |].
  { unfold first. by rewrite Hfirst. }
  rewrite (Htrace2 _ _ Hpeer Hobject) in Hsecond.
  unfold second. rewrite Hsecond. unfold first. rewrite Hfirst.
  unfold service_calls. cbn [fst snd store events].
  by rewrite !Hcalls.
Qed.

Lemma REST_FETCH_TRANSACTIONS_fetches_again_witness :
  let first := REST_FETCH_TRANSACTIONS Example.env (Example.query "unconfirmed")
                 initial_world in
  let second := REST_FETCH_TRANSACTIONS Example.env (Example.query "unconfirmed")
                  (snd first) in
  State.unconfirmedTransactions (store (snd first)) = [Some Example.transaction_1]
  ∧ service_calls (snd first) = 1
  ∧ service_calls (snd second) = 2.
Proof.
  pose proof (REST_FETCH_TRANSACTIONS_fetches_again
                Example.env (Example.query "unconfirmed") Example.address_1
                "http://api-01.example.org:3000" Example.address_1
                initial_world eq_refl eq_refl eq_refl eq_refl) as Hagain.
  cbv zeta in Hagain.
  destruct Hagain as (_ & _ & Hfirst & Hsecond); [by vm_compute|reflexivity|].
  split; [reflexivity|]. split; [exact Hfirst|exact Hsecond].
Defined.

(** C9, as stated, fails: of two registered handles, closing the first
    throws; UNSUBSCRIBE throws in turn, the second handle is neither
    unsubscribed nor closed, and both stay registered. *)
Lemma UNSUBSCRIBE_leaves_the_later_handles_open :
  UNSUBSCRIBE Example.world_2
  = (Throw (ServiceError "close failed"),
     {| store := store Example.world_2;
        events := [Unsubscribed 10; Unsubscribed 11] |})
  ∧ (Closed 2 ∉ events (snd (UNSUBSCRIBE Example.world_2)))
  ∧ (Unsubscribed 20 ∉ events (snd (UNSUBSCRIBE Example.world_2))).
Proof.
  split; [reflexivity|].
  split; cbn; rewrite !elem_of_cons, elem_of_nil; (by intros [|[|]]).
Qed.

(** C9, amended. When closing the listener of a handle throws during
    UNSUBSCRIBE, the handles registered before it have been unsubscribed
    and closed and its own channels unsubscribed; the exception then
    leaves the action: no later handle is touched and the registry is not
    reset. *)
Theorem UNSUBSCRIBE_stops_at_the_first_failure w before failing rest :
  State.subscriptions (store w) = before ++ failing :: rest →
  Forall sound before →
  Forall (λ sub, unsubscribe_fails sub = false)
         (SubscriptionType.subscriptions failing) →
  close_fails (SubscriptionType.listener failing) = true →
  UNSUBSCRIBE w
  = (Throw (ServiceError "close failed"),
     {| store := store w;
        events := events w ++ flat_map teardown before
                  ++ map (λ sub, Unsubscribed (subscription_id sub))
                         (SubscriptionType.subscriptions failing) |}).
Proof.
  intros Hregistry Hbefore Hsubs Hclose.
  unfold UNSUBSCRIBE, bind at 1, get_state, Getters.getSubscriptions.
  rewrite Hregistry. unfold bind at 1.
  rewrite for_each_app, tear_down_all by done.
  cbn [for_each]. unfold bind at 1. unfold bind at 1.
  rewrite for_each_unsubscribe by done.
  unfold close. rewrite Hclose. cbn [throw store events].
  by rewrite <-(assoc_L (++)).
Qed.

Lemma UNSUBSCRIBE_stops_at_the_first_failure_witness :
  UNSUBSCRIBE Example.world_3
  = (Throw (ServiceError "close failed"),
     {| store := store Example.world_3;
        events := [Unsubscribed 10; Unsubscribed 11; Closed 1;
                   Unsubscribed 20; Unsubscribed 21] |}).
Proof.
  apply (UNSUBSCRIBE_stops_at_the_first_failure Example.world_3
           [Example.handle 1 false] (Example.handle 2 true) [Example.handle 3 false]).
  - reflexivity.
  - repeat constructor.
  - repeat constructor.
  - reflexivity.
Defined.

(** C10. When the address is missing, or is a string of any length other
    than 40, REST_FETCH_TRANSACTIONS returns [undefined] and leaves the
    world as it was: the store is unchanged and no event is recorded, so
    the cache was not read and the gateway was not called. *)
Theorem REST_FETCH_TRANSACTIONS_address_guard env query w :
  (∀ address, Query.address query = Some address → String.length address ≠ 40) →
  REST_FETCH_TRANSACTIONS env query w = (Normal ReturnUndefined, w).
Proof. apply REST_FETCH_TRANSACTIONS_guard. Qed.

Lemma REST_FETCH_TRANSACTIONS_address_guard_witness :
  String.length "TAHNZXQBC57AA7KJTMGS3PJPZBXN7DV5JHJU42G" = 39
  ∧ REST_FETCH_TRANSACTIONS Example.env
      (Query.make (Some "confirmed") (Some "TAHNZXQBC57AA7KJTMGS3PJPZBXN7DV5JHJU42G")
                  10 None) Example.world_1
    = (Normal ReturnUndefined, Example.world_1).
Proof.
  split; [reflexivity|].
  apply (REST_FETCH_TRANSACTIONS_address_guard Example.env
           (Query.make (Some "confirmed")
                       (Some "TAHNZXQBC57AA7KJTMGS3PJPZBXN7DV5JHJU42G") 10 None)
           Example.world_1).
  intros address [= <-]. discriminate.
Defined.

(** ** Further properties of the module *)

(** *** Names of state variables *)

Lemma by_name_by_name name transactions s :
  is_variable name →
  Getters.by_name name (Mutations.by_name name transactions s) = Some transactions.
Proof. by intros [->|[->| ->]]. Qed.

Lemma by_name_other name transactions s :
  is_variable name →
  ∀ name', name' ≠ name →
    Getters.by_name name' (Mutations.by_name name transactions s)
    = Getters.by_name name' s.
Proof.
  intros Hname name' Hother. unfold Getters.by_name.
  destruct (String.eqb_spec name' "confirmedTransactions") as [->|_];
    [by destruct Hname as [->|[->| ->]]|].
  destruct (String.eqb_spec name' "unconfirmedTransactions") as [->|_];
    [by destruct Hname as [->|[->| ->]]|].
  destruct (String.eqb_spec name' "partialTransactions") as [->|_];
    [by destruct Hname as [->|[->| ->]]|done].
Qed.

(** X1. Every name transactionGroupToStateVariable returns is the name of a
    getter and of a mutation of the module: a sequence committed under it
    is what the getter of that name returns afterwards, and the getters of
    the other names, the hash index and the cache are as before. *)
Theorem state_variable_round_trip group name transactions s :
  transactionGroupToStateVariable group = Normal name →
  Getters.by_name name (Mutations.by_name name transactions s) = Some transactions
  ∧ (∀ name', name' ≠ name →
       Getters.by_name name' (Mutations.by_name name transactions s)
       = Getters.by_name name' s)
  ∧ State.transactionHashes (Mutations.by_name name transactions s)
    = State.transactionHashes s
  ∧ State.transactionCache (Mutations.by_name name transactions s)
    = State.transactionCache s.
Proof.
  intros Hname%group_variable. split; [by apply by_name_by_name|].
  split; [by apply by_name_other|].
  split; [apply transactionHashes_push|apply cache_push].
Qed.

Lemma state_variable_round_trip_witness :
  Getters.by_name "partialTransactions"
    (Mutations.by_name "partialTransactions" [Some Example.transaction_1]
       (store Example.world_1))
  = Some [Some Example.transaction_1].
Proof.
  apply (state_variable_round_trip "PARTIAL" "partialTransactions"
           [Some Example.transaction_1] (store Example.world_1)).
  reflexivity.
Defined.

(** *** What ADD_TRANSACTION does to the arrays *)

Lemma by_name_prefix name transactions slot s :
  is_variable name →
  Getters.by_name name s = Some transactions →
  let s' := Mutations.by_name name (transactions ++ [slot]) s in
  State.partialTransactions s `prefix_of` State.partialTransactions s'
  ∧ State.unconfirmedTransactions s `prefix_of` State.unconfirmedTransactions s'
  ∧ State.confirmedTransactions s `prefix_of` State.confirmedTransactions s'.
Proof.
  intros Hname Hread.
  destruct Hname as [->|[->| ->]]; injection Hread as <-; cbn;
    repeat split; try done; by apply prefix_app_r.
Qed.

(** X2. ADD_TRANSACTION only ever appends: whatever the payload, and
    whether it returns or throws, the hash index and each of the three
    sequences before the call are a prefix of what they are after it. *)
Theorem ADD_TRANSACTION_only_appends m w :
  let s := store w in
  let s' := store (snd (ADD_TRANSACTION m w)) in
  State.transactionHashes s `prefix_of` State.transactionHashes s'
  ∧ State.partialTransactions s `prefix_of` State.partialTransactions s'
  ∧ State.unconfirmedTransactions s `prefix_of` State.unconfirmedTransactions s'
  ∧ State.confirmedTransactions s `prefix_of` State.confirmedTransactions s'.
Proof.
  destruct (ADD_TRANSACTION_outcome m w) as (r & s' & -> & Hs'). cbn [snd store].
  destruct Hs' as [->|(message & name & transactions & _ & Hname & Hread & Hs')];
    [done|].
  pose proof (by_name_prefix name transactions (Some (transaction message))
                (store w) Hname Hread) as Hprefix.
  destruct Hs' as [(_ & _ & ->)|(info & _ & _ & ->)].
  - split; [by rewrite transactionHashes_push|done].
  - split; [|done].
    change (State.transactionHashes (Mutations.addTransactionToCache ?p
              (Mutations.transactionHashes ?hs ?s))) with hs.
    by apply prefix_app_r.
Qed.

(** X3. Given a known group and a transaction without [transactionInfo],
    ADD_TRANSACTION throws a TypeError. When the hash index is empty the
    transaction has been appended to the sequence of its group by then,
    and stays there without a hash in the index; when the index is not
    empty the error comes from the search and the store is unchanged. *)
Theorem ADD_TRANSACTION_without_transactionInfo message name w :
  transactionGroupToStateVariable (default "" (group message)) = Normal name →
  falsy (group message) = false →
  transactionInfo (transaction message) = None →
  (State.transactionHashes (store w) = [] →
   ∃ transactions,
     Getters.by_name name (store w) = Some transactions
     ∧ ADD_TRANSACTION (Some message) w
       = (Throw (TypeError "Cannot read property 'hash' of undefined"),
          {| store := Mutations.by_name name
                        (transactions ++ [Some (transaction message)]) (store w);
             events := events w |}))
  ∧ (State.transactionHashes (store w) ≠ [] →
     ADD_TRANSACTION (Some message) w
     = (Throw (TypeError "Cannot read property 'hash' of undefined"), w)).
Proof.
  intros Hname Hfalsy Hinfo. destruct w as [s es].
  pose proof (group_variable _ _ Hname) as Hvar.
  destruct (by_name_is_Some name s Hvar) as [transactions Hread].
  unfold ADD_TRANSACTION. rewrite Hfalsy. unfold_action. rewrite Hname.
  unfold transactionInfo_hash. rewrite Hinfo. cbn [store events].
  split.
  - intros ->. exists transactions. split; [done|].
    cbn [find store events]. by rewrite Hread.
  - intros Hhashes. by destruct (State.transactionHashes s).
Qed.

Lemma ADD_TRANSACTION_without_transactionInfo_witness :
  ADD_TRANSACTION (Example.message "confirmed" Example2.transaction_5) initial_world
  = (Throw (TypeError "Cannot read property 'hash' of undefined"),
     {| store := Mutations.by_name "confirmedTransactions"
                   [Some Example2.transaction_5] State.initial;
        events := [] |})
  ∧ ADD_TRANSACTION (Example.message "confirmed" Example2.transaction_5)
      Example.world_1
    = (Throw (TypeError "Cannot read property 'hash' of undefined"), Example.world_1).
Proof.
  destruct (ADD_TRANSACTION_without_transactionInfo
              {| group := Some "confirmed"; cacheKey := None;
                 transaction := Example2.transaction_5 |}
              "confirmedTransactions" initial_world eq_refl eq_refl eq_refl)
    as [Hempty _].
  destruct (ADD_TRANSACTION_without_transactionInfo
              {| group := Some "confirmed"; cacheKey := None;
                 transaction := Example2.transaction_5 |}
              "confirmedTransactions" Example.world_1 eq_refl eq_refl eq_refl)
    as [_ Hknown].
  split.
  - destruct (Hempty eq_refl) as (transactions & [= <-] & Hadd). exact Hadd.
  - apply Hknown. discriminate.
Defined.

(** X4. A transaction the [transactionInfo] of which has no hash is never
    taken for a known one: in every state ADD_TRANSACTION returns normally,
    having appended it to the sequence of its group and an [undefined] to
    the hash index. *)
Theorem ADD_TRANSACTION_without_hash message name transactions info w :
  transactionGroupToStateVariable (default "" (group message)) = Normal name →
  falsy (group message) = false →
  Getters.by_name name (store w) = Some transactions →
  transactionInfo (transaction message) = Some info →
  TransactionInfo.hash info = None →
  let result := ADD_TRANSACTION (Some message) w in
  fst result = Normal tt
  ∧ Getters.by_name name (store (snd result))
    = Some (transactions ++ [Some (transaction message)])
  ∧ State.transactionHashes (store (snd result))
    = State.transactionHashes (store w) ++ [None].
Proof.
  intros Hname Hfalsy Hread Hinfo Hhash. destruct w as [s es].
  pose proof (group_variable _ _ Hname) as Hvar.
  unfold ADD_TRANSACTION. rewrite Hfalsy. unfold_action. rewrite Hname.
  unfold transactionInfo_hash. rewrite Hinfo, Hhash, find_value.
  replace (if bool_decide (None ∈ State.transactionHashes s) then None else None)
    with (@None string) by by destruct (bool_decide _).
  cbn [store events] in *. rewrite Hread. cbn [fst snd store].
  split; [done|]. split.
  - change (Getters.by_name name (Mutations.transactionHashes ?hs ?s'))
      with (Getters.by_name name s').
    rewrite by_name_by_name by done.
    destruct Hvar as [->|[->| ->]]; reflexivity.
  - reflexivity.
Qed.

Lemma ADD_TRANSACTION_without_hash_witness :
  let message := {| group := Some "confirmed"; cacheKey := None;
                    transaction := Example2.transaction_4 |} in
  let once := snd (ADD_TRANSACTION (Some message) initial_world) in
  Getters.by_name "confirmedTransactions"
    (store (snd (ADD_TRANSACTION (Some message) once)))
  = Some [Some Example2.transaction_4; Some Example2.transaction_4].
Proof.
  intros message once.
  apply (ADD_TRANSACTION_without_hash message "confirmedTransactions"
           [Some Example2.transaction_4] (TransactionInfo.make 0 None) once);
    reflexivity.
Defined.

(** X5. Given a known group and a transaction the hash of which is in the
    hash index, ADD_TRANSACTION returns normally and changes nothing,
    whichever group the message names. *)
Theorem ADD_TRANSACTION_known_hash message name info h w :
  transactionGroupToStateVariable (default "" (group message)) = Normal name →
  falsy (group message) = false →
  transactionInfo (transaction message) = Some info →
  TransactionInfo.hash info = Some h →
  Some h ∈ State.transactionHashes (store w) →
  ADD_TRANSACTION (Some message) w = (Normal tt, w).
Proof.
  intros Hname Hfalsy Hinfo Hhash Hknown.
  unfold ADD_TRANSACTION. rewrite Hfalsy. unfold_action. rewrite Hname.
  unfold transactionInfo_hash. rewrite Hinfo, Hhash, find_value.
  by rewrite bool_decide_eq_true_2.
Qed.

Lemma ADD_TRANSACTION_known_hash_witness :
  ADD_TRANSACTION (Example.message "partial" Example.transaction_1) Example.world_1
  = (Normal tt, Example.world_1).
Proof.
  apply (ADD_TRANSACTION_known_hash
           {| group := Some "partial"; cacheKey := None;
              transaction := Example.transaction_1 |}
           "partialTransactions" (TransactionInfo.make 120 (Some Example.hash_1))
           Example.hash_1 Example.world_1); try reflexivity.
  apply list_elem_of_here.
Defined.

Lemma REMOVE_TRANSACTION_digest m w :
  removes_a_digest (Remove m) →
  snd (REMOVE_TRANSACTION m w) = w.
Proof.
  intros Hdigest.
  destruct (REMOVE_TRANSACTION_outcome m w) as (r & hashes & -> & Hhashes).
  cbn [snd].
  assert (hashes = State.transactionHashes (store w)) as ->.
  { destruct Hhashes as [->|(message & h & -> & Hmeta & _ & ->)]; [done|].
    apply delete_not_index. by apply Hdigest. }
  destruct w as [[] es]. reflexivity.
Qed.

(** X6. Given a hash that is no decimal array index, REMOVE_TRANSACTION
    leaves the whole world as it is, whether it returns or throws: the
    sequences, the hash index, the cache and the events. *)
Theorem REMOVE_TRANSACTION_changes_nothing m w :
  removes_a_digest (Remove m) →
  snd (REMOVE_TRANSACTION m w) = w.
Proof. apply REMOVE_TRANSACTION_digest. Qed.

Lemma REMOVE_TRANSACTION_changes_nothing_witness :
  snd (REMOVE_TRANSACTION (Example.message "confirmed" Example.transaction_3)
         Example.world_1) = Example.world_1.
Proof.
  apply (REMOVE_TRANSACTION_changes_nothing
           (Example.message "confirmed" Example.transaction_3) Example.world_1).
  intros h [= <-]. reflexivity.
Defined.

(** *** The cache *)

Lemma addTransactionToCache_lookup payload s :
  let key := property_key (CachePayload.cacheKey payload) in
  let entry := CacheEntry.make (CachePayload.hash payload)
                               (CachePayload.transaction payload) in
  let s' := Mutations.addTransactionToCache (Some payload) s in
  State.transactionCache s' !! key
  = Some (default [] (State.transactionCache s !! key) ++ [entry])
  ∧ (∀ key', key' ≠ key →
       State.transactionCache s' !! key' = State.transactionCache s !! key')
  ∧ Mutations.addTransactionToCache None s = s.
Proof.
  intros key entry s'. unfold s'. cbn -[property_key]. fold key. fold entry.
  split; [|split; [|done]].
  - rewrite lookup_alter_eq.
    destruct (State.transactionCache s !! key) as [entries|] eqn:Hkey.
    + by rewrite Hkey.
    + by rewrite lookup_insert_eq.
  - intros key' Hother. rewrite lookup_alter_ne by done.
    destruct (State.transactionCache s !! key); [done|].
    by rewrite lookup_insert_ne.
Qed.


Lemma cache_invariant_add hash transaction s :
  cache_invariant s →
  cache_invariant
    (Mutations.addTransactionToCache
       (Some (CachePayload.make None hash transaction))
       (Mutations.transactionHashes (State.transactionHashes s ++ [hash]) s)).
Proof.
  intros [Hkeys Hhashes].
  pose proof (addTransactionToCache_lookup
                (CachePayload.make None hash transaction)
                (Mutations.transactionHashes (State.transactionHashes s ++ [hash]) s))
    as (Hnew & Hother & _).
  cbn -[Mutations.addTransactionToCache] in Hnew, Hother.
  split.
  - intros key Hkey. rewrite Hother by done. by apply Hkeys.
  - rewrite Hnew. cbn [default].
    change (State.transactionHashes (Mutations.addTransactionToCache ?p
              (Mutations.transactionHashes ?hs ?s0))) with hs.
    change (id ?x) with x. by rewrite fmap_app, Hhashes.
Qed.

Lemma cache_invariant_push name transactions s :
  cache_invariant s → cache_invariant (Mutations.by_name name transactions s).
Proof.
  unfold cache_invariant. by rewrite cache_push, transactionHashes_push.
Qed.

Lemma after_cache_invariant operation w :
  removes_a_digest operation →
  cache_invariant (store w) →
  cache_invariant (store (after operation w)).
Proof.
  destruct operation as [m|m|]; unfold after; cbn [perform]; intros Hdigest Hinv.
  - destruct (ADD_TRANSACTION_outcome m w) as (r & s' & -> & Hs'). cbn [snd store].
    destruct Hs' as [->|(message & name & transactions & _ & _ & _ & Hs')]; [done|].
    destruct Hs' as [(_ & _ & ->)|(info & _ & _ & ->)].
    + by apply cache_invariant_push.
    + pose proof (cache_invariant_push name
                    (transactions ++ [Some (transaction message)]) _ Hinv) as Hpushed.
      pose proof (cache_invariant_add (TransactionInfo.hash info)
                    (transaction message) _ Hpushed) as Hadded.
      by rewrite transactionHashes_push in Hadded.
  - by rewrite REMOVE_TRANSACTION_digest.
  - by rewrite RESET_TRANSACTIONS_outcome.
Qed.

(** X8. In every state reached from the initial one by ADD_TRANSACTION,
    REMOVE_TRANSACTION (given transaction hashes) and RESET_TRANSACTIONS,
    the cache has no collection but "undefined", and the hashes of its
    entries are, in order, the slots of the hash index. *)
Theorem cache_invariant_reachable (operations : list Operation) :
  Forall removes_a_digest operations →
  cache_invariant (store (run operations initial_world)).
Proof.
  induction operations as [|operation operations IH] using rev_ind; intros Hall.
  - split; [done|reflexivity].
  - rewrite run_snoc. apply Forall_app in Hall as [Hall Hlast].
    apply after_cache_invariant; [by inversion Hlast|by apply IH].
Qed.

Lemma cache_invariant_reachable_witness :
  cache_invariant (store (run Example.operations initial_world)).
Proof.
  apply (cache_invariant_reachable Example.operations).
  repeat constructor. intros h [= <-]. reflexivity.
Defined.

(** *** The page fetch *)

Section FetchMore.
Variable env : Env.

(** X9. When the cache has a collection under the key of the query,
    REST_FETCH_TRANSACTIONS returns that collection of [{hash,
    transaction}] entries; the store is unchanged and the cache lookup is
    the only event: the gateway is not called and nothing is logged. *)
Theorem REST_FETCH_TRANSACTIONS_cache_hit query address collection w :
  let key := CacheKey_create env (group_or_default (Query.group query)) address
               (Query.pageSize query) (Query.id query) in
  Query.address query = Some address →
  String.length address = 40 →
  State.transactionCache (store w) !! key = Some collection →
  REST_FETCH_TRANSACTIONS env query w
  = (Normal (ReturnCached collection),
     {| store := store w; events := events w ++ [CacheRead key] |}).
Proof. apply REST_FETCH_TRANSACTIONS_hit. Qed.

(** X10. For the group 'confirmed' (given or defaulted)
    REST_FETCH_TRANSACTIONS never changes the store: a non-empty page makes
    the recording of block heights throw before any transaction is added. *)
Theorem REST_FETCH_TRANSACTIONS_confirmed_page_not_stored query w :
  group_or_default (Query.group query) = "confirmed" →
  store (snd (REST_FETCH_TRANSACTIONS env query w)) = store w.
Proof.
  intros Hgroup. unfold REST_FETCH_TRANSACTIONS. rewrite Hgroup.
  destruct (Query.address query) as [address|]; [|done].
  destruct (_ || _); [done|].
  unfold bind at 1. unfold emit at 1. unfold bind at 1. unfold get_state at 1.
  cbn [store events].
  destruct (State.transactionCache (store w) !! _); [done|].
  unfold try_catch, request, bind, emit, lift, ret, throw.
  cbn [String.eqb Ascii.eqb Bool.eqb store events].
  destruct (currentPeer env) as [peer|e]; [|done].
  destruct (createFromRawAddress env address) as [addressObject|e]; [|done].
  by destruct (getAccountTransactions env peer addressObject _ _)
    as [[|transaction transactions]|e].
Qed.

(** X11. On a cache miss for the group 'unconfirmed' or 'partial', when the
    gateway answers with a page, REST_FETCH_TRANSACTIONS runs
    ADD_TRANSACTION on the transactions of the page in order, up to the
    first that throws; the store is the one these calls leave, and the
    action logs an error and returns [false]. *)
Theorem REST_FETCH_TRANSACTIONS_stores_page query address peer addressObject
    transactions w :
  let group := group_or_default (Query.group query) in
  let key := CacheKey_create env group address (Query.pageSize query) (Query.id query) in
  let call := ServiceCall group address (Query.pageSize query) (Query.id query) in
  let add := λ transaction : Transaction,
    ADD_TRANSACTION (Some {| group := Some group; cacheKey := Some key;
                             transaction := transaction |}) in
  Query.address query = Some address →
  String.length address = 40 →
  State.transactionCache (store w) !! key = None →
  currentPeer env = Normal peer →
  createFromRawAddress env address = Normal addressObject →
  group = "unconfirmed"
  ∧ getAccountUnconfirmedTransactions env peer addressObject
      (Query.pageSize query) (Query.id query) = Normal transactions
  ∨ group = "partial"
    ∧ getAccountPartialTransactions env peer addressObject
        (Query.pageSize query) (Query.id query) = Normal transactions →
  let stored :=
    snd (for_each add transactions
           {| store := store w; events := events w ++ [CacheRead key; call] |}) in
  ∃ text,
    REST_FETCH_TRANSACTIONS env query w
    = (Normal ReturnFalse,
       {| store := store stored; events := events stored ++ [ConsoleError text] |}).
Proof.
  intros group key call add Haddress Hlength Hmiss Hpeer Hobject Hpage stored.
  unfold REST_FETCH_TRANSACTIONS. rewrite Haddress.
  assert (falsy (Some address) = false) as ->.
  { destruct address; [done|reflexivity]. }
  rewrite Hlength. cbn [Nat.eqb negb orb]. fold group. fold key.
  unfold bind at 1. unfold emit at 1. unfold bind at 1. unfold get_state at 1.
  cbn [store events]. rewrite Hmiss.
  unfold try_catch. unfold bind at 1, lift at 1. rewrite Hpeer.
  unfold bind at 1, lift at 1. rewrite Hobject.
  fold call. fold add.
  assert (Hresponse :
    ∃ text,
      (let (c, w') :=
         (let* fetched :=
            (let* transactions := request call (Normal transactions) in
             ret (transactions, @None (list N))) in
          let* _ := for_each add fetched.1 in
          let* heights :=
            match fetched.2 with
            | Some heights => ret heights
            | None => throw (TypeError "Cannot read property 'length' of undefined")
            end in
          let* _ := (if (length heights =? 0)%nat then ret ()
                     else emit (DispatchedBlocks heights)) in
          ret (ReturnTransactions fetched.1))
           {| store := store w; events := events w ++ [CacheRead key] |} in
       match c with
       | Normal a => (Normal a, w')
       | Throw e =>
           (let* _ := emit (ConsoleError
                              ("An error happened while trying to fetch transactions: "
                               +:+ describe e)) in
            ret ReturnFalse) w'
       end)
      = (Normal ReturnFalse,
         {| store := store stored; events := events stored ++ [ConsoleError text] |})).
  { unfold request, bind, emit, lift, ret, throw. cbn [store events fst snd].
    unfold stored. rewrite <-(assoc_L (++)). cbn [app].
    destruct (for_each add transactions _) as [[[]|e] w2]; by eauto. }
  destruct Hpage as [[Hgroup Hpage]|[Hgroup Hpage]]; rewrite Hgroup;
    cbn [String.eqb Ascii.eqb Bool.eqb]; rewrite Hpage; exact Hresponse.
Qed.

(** X12. REST_FETCH_TRANSACTIONS adds only cache lookups, gateway calls and
    console errors to the events, and at most one gateway call: the fetch
    of blocks is never dispatched. *)
Theorem REST_FETCH_TRANSACTIONS_events query w :
  ∃ added,
    events (snd (REST_FETCH_TRANSACTIONS env query w)) = events w ++ added
    ∧ forallb is_fetch_event added = true
    ∧ (length (List.filter is_service_call added) ≤ 1)%nat.
Proof.
  destruct (Query.address query) as [address|] eqn:Haddress.
  2:{ rewrite REST_FETCH_TRANSACTIONS_guard by congruence.
      exists []. rewrite (right_id_L [] (++)). cbn. auto with lia. }
  destruct (decide (String.length address = 40)) as [Hlength|Hlength].
  2:{ rewrite REST_FETCH_TRANSACTIONS_guard by congruence.
      exists []. rewrite (right_id_L [] (++)). cbn. auto with lia. }
  destruct (State.transactionCache (store w)
            !! CacheKey_create env (group_or_default (Query.group query))
                 address (Query.pageSize query) (Query.id query))
    as [collection|] eqn:Hcache.
  { erewrite REST_FETCH_TRANSACTIONS_hit by done. eexists [_]. cbn. auto with lia. }
  unfold REST_FETCH_TRANSACTIONS. rewrite Haddress.
  assert (falsy (Some address) = false) as ->.
  { destruct address; [done|reflexivity]. }
  rewrite Hlength. cbn [Nat.eqb negb orb].
  unfold bind at 1. unfold emit at 1. unfold bind at 1. unfold get_state at 1.
  cbn [store events]. rewrite Hcache.
  set (group := group_or_default (Query.group query)).
  set (key := CacheKey_create env group address (Query.pageSize query) (Query.id query)).
  set (call := ServiceCall group address (Query.pageSize query) (Query.id query)).
  set (add := λ transaction : Transaction,
         ADD_TRANSACTION (Some {| group := Some group; cacheKey := Some key;
                                  transaction := transaction |})).
  unfold try_catch. unfold bind at 1, lift at 1.
  destruct (currentPeer env) as [peer|e].
  2:{ eexists [_; _]. unfold bind, emit, ret. cbn.
      rewrite <-(assoc_L (++)). auto with lia. }
  unfold bind at 1, lift at 1.
  destruct (createFromRawAddress env address) as [addressObject|e].
  2:{ eexists [_; _]. unfold bind, emit, ret. cbn.
      rewrite <-(assoc_L (++)). auto with lia. }
  assert (Hresponse : ∀ response,
    ∃ added,
      events
        (let (c, w') :=
           (let* fetched :=
              (let* transactions := request call response in
               ret (transactions, @None (list N))) in
            let* _ := for_each add fetched.1 in
            let* heights :=
              match fetched.2 with
              | Some heights => ret heights
              | None => throw (TypeError "Cannot read property 'length' of undefined")
              end in
            let* _ := (if (length heights =? 0)%nat then ret ()
                       else emit (DispatchedBlocks heights)) in
            ret (ReturnTransactions fetched.1))
             {| store := store w; events := events w ++ [CacheRead key] |} in
         match c with
         | Normal a => (Normal a, w')
         | Throw e =>
             (let* _ := emit (ConsoleError
                                ("An error happened while trying to fetch transactions: "
                                 +:+ describe e)) in
              ret ReturnFalse) w'
         end).2
      = events w ++ added
      ∧ forallb is_fetch_event added = true
      ∧ (length (List.filter is_service_call added) ≤ 1)%nat).
  { intros [transactions|e]; unfold request, bind, emit, lift, ret, throw;
      cbn [store events fst snd].
    - pose proof (for_each_framed key add transactions
                    {| store := store w; events := (events w ++ [CacheRead key]) ++ [call] |}
                    (λ x w', ADD_TRANSACTION_framed key _ w')) as [Hev _].
      cbn [events] in Hev.
      destruct (for_each add transactions _) as [[[]|e] w2]; cbn [snd events] in *;
        rewrite Hev, <-!(assoc_L (++)); eexists [_; _; _]; cbn; auto with lia.
    - rewrite <-!(assoc_L (++)). eexists [_; _; _]. cbn. auto with lia. }
  destruct (group_or_default_cases (Query.group query)) as [Hg|[Hg|Hg]];
    fold group in Hg; rewrite Hg; cbn [String.eqb Ascii.eqb Bool.eqb];
    rewrite <-?Hg.
  - apply Hresponse.
  - apply Hresponse.
  - destruct (getAccountTransactions env peer addressObject (Query.pageSize query)
                (Query.id query)) as [[|transaction transactions]|e].
    + exact (Hresponse (Normal [])).
    + unfold request, bind, emit, lift, ret, throw.
      cbn [record_heights record_height store events snd].
      rewrite <-!(assoc_L (++)). eexists [_; _; _]. cbn. auto with lia.
    + exact (Hresponse (Throw e)).
Qed.

End FetchMore.

Lemma REST_FETCH_TRANSACTIONS_cache_hit_witness :
  REST_FETCH_TRANSACTIONS Example2.gateway (Example.query "confirmed") Example2.world_6
  = (Normal (ReturnCached
               [CacheEntry.make (Some Example.hash_1) Example.transaction_1]),
     {| store := store Example2.world_6;
        events := [CacheRead (Example.fingerprint "confirmed" Example.address_1 10 None)] |}).
Proof.
  apply (REST_FETCH_TRANSACTIONS_cache_hit Example2.gateway (Example.query "confirmed")
           Example.address_1); reflexivity.
Defined.

Lemma REST_FETCH_TRANSACTIONS_confirmed_page_not_stored_witness :
  getAccountTransactions Example2.gateway "http://api-01.example.org:3000"
    Example.address_1 10 None
  = Normal [Example.transaction_1; Example.transaction_2]
  ∧ store (snd (REST_FETCH_TRANSACTIONS Example2.gateway (Example.query "bogus")
                  initial_world)) = State.initial.
Proof.
  split; [reflexivity|].
  apply (REST_FETCH_TRANSACTIONS_confirmed_page_not_stored Example2.gateway
           (Example.query "bogus") initial_world).
  reflexivity.
Defined.

Lemma REST_FETCH_TRANSACTIONS_stores_page_witness :
  ∃ text,
    REST_FETCH_TRANSACTIONS Example2.gateway (Example.query "partial") initial_world
    = (Normal ReturnFalse,
       {| store :=
            store (run [Add (Some {| group := Some "partial";
                                     cacheKey := Some (Example.fingerprint "partial"
                                                         Example.address_1 10 None);
                                     transaction := Example.transaction_1 |});
                        Add (Some {| group := Some "partial";
                                     cacheKey := Some (Example.fingerprint "partial"
                                                         Example.address_1 10 None);
                                     transaction := Example.transaction_2 |})]
                       initial_world);
          events :=
            [CacheRead (Example.fingerprint "partial" Example.address_1 10 None);
             ServiceCall "partial" Example.address_1 10 None;
             ConsoleError text] |}).
Proof.
  destruct (REST_FETCH_TRANSACTIONS_stores_page Example2.gateway
              (Example.query "partial") Example.address_1
              "http://api-01.example.org:3000" Example.address_1
              [Example.transaction_1; Example.transaction_2] initial_world
              eq_refl eq_refl eq_refl eq_refl eq_refl
              (or_intror (conj eq_refl eq_refl))) as [text Hfetch].
  exists text. etrans; [exact Hfetch|]. vm_compute. reflexivity.
Defined.

(** *** Tearing down, further *)

(** X13. When no handle throws, UNSUBSCRIBE unsubscribes the channels of
    each registered handle and then closes its listener, handle by handle
    in the order of registration, and empties the registry. *)
Theorem UNSUBSCRIBE_tears_all_down w :
  Forall sound (State.subscriptions (store w)) →
  UNSUBSCRIBE w
  = (Normal tt,
     {| store := Mutations.setSubscriptions [] (store w);
        events := events w ++ flat_map teardown (State.subscriptions (store w)) |}).
Proof. apply UNSUBSCRIBE_all_sound. Qed.

Lemma UNSUBSCRIBE_tears_all_down_witness :
  UNSUBSCRIBE Example2.world_5
  = (Normal tt,
     {| store := State.initial;
        events := [Unsubscribed 10; Unsubscribed 11; Closed 1;
                   Unsubscribed 20; Unsubscribed 21; Closed 2] |}).
Proof.
  apply (UNSUBSCRIBE_tears_all_down Example2.world_5).
  repeat constructor.
Defined.

(** X14. After an UNSUBSCRIBE in which no handle threw, a second UNSUBSCRIBE
    returns normally and changes nothing; so does UNSUBSCRIBE on an empty
    registry. *)
Theorem UNSUBSCRIBE_twice w :
  Forall sound (State.subscriptions (store w)) →
  UNSUBSCRIBE (snd (UNSUBSCRIBE w)) = (Normal tt, snd (UNSUBSCRIBE w)).
Proof.
  intros Hsound. rewrite (UNSUBSCRIBE_all_sound w) by done. cbn [snd].
  rewrite UNSUBSCRIBE_all_sound by (cbn; constructor).
  cbn. by rewrite (right_id_L [] (++)).
Qed.

Lemma UNSUBSCRIBE_twice_witness :
  UNSUBSCRIBE (snd (UNSUBSCRIBE Example2.world_5))
  = (Normal tt, snd (UNSUBSCRIBE Example2.world_5))
  ∧ UNSUBSCRIBE initial_world = (Normal tt, initial_world).
Proof.
  split; [|reflexivity].
  apply (UNSUBSCRIBE_twice Example2.world_5). repeat constructor.
Defined.

Lemma for_each_unsubscribe_failure working failing later w :
  Forall (λ sub, unsubscribe_fails sub = false) working →
  unsubscribe_fails failing = true →
  for_each unsubscribe (working ++ failing :: later) w
  = (Throw (ServiceError "unsubscribe failed"),
     {| store := store w;
        events := events w
                  ++ map (λ sub, Unsubscribed (subscription_id sub)) working |}).
Proof.
  intros Hworking Hfailing.
  rewrite for_each_app, for_each_unsubscribe by done.
  cbn [for_each]. unfold bind at 1, unsubscribe at 1. rewrite Hfailing.
  reflexivity.
Qed.

(** X15. When unsubscribing a channel of a handle throws, UNSUBSCRIBE throws:
    the handles before have been torn down and the channels before the
    failing one unsubscribed, but the listener of that handle is not
    closed, no later handle is touched and the registry is not reset. *)
Theorem UNSUBSCRIBE_stops_at_a_failing_channel w before handle rest
    working failing later :
  State.subscriptions (store w) = before ++ handle :: rest →
  Forall sound before →
  SubscriptionType.subscriptions handle = working ++ failing :: later →
  Forall (λ sub, unsubscribe_fails sub = false) working →
  unsubscribe_fails failing = true →
  UNSUBSCRIBE w
  = (Throw (ServiceError "unsubscribe failed"),
     {| store := store w;
        events := events w ++ flat_map teardown before
                  ++ map (λ sub, Unsubscribed (subscription_id sub)) working |}).
Proof.
  intros Hregistry Hbefore Hchannels Hworking Hfailing.
  unfold UNSUBSCRIBE, bind at 1, get_state, Getters.getSubscriptions.
  rewrite Hregistry. unfold bind at 1.
  rewrite for_each_app, tear_down_all by done.
  cbn [for_each]. unfold bind at 1. unfold bind at 1.
  rewrite Hchannels, for_each_unsubscribe_failure by done.
  cbn [store events]. by rewrite <-(assoc_L (++)).
Qed.

Lemma UNSUBSCRIBE_stops_at_a_failing_channel_witness :
  UNSUBSCRIBE Example2.world_4
  = (Throw (ServiceError "unsubscribe failed"),
     {| store := store Example2.world_4;
        events := [Unsubscribed 10; Unsubscribed 11; Closed 1; Unsubscribed 40] |}).
Proof.
  apply (UNSUBSCRIBE_stops_at_a_failing_channel Example2.world_4
           [Example.handle 1 false] Example2.handle_4 [Example.handle 3 false]
           [ {| subscription_id := 40; unsubscribe_fails := false |} ]
           {| subscription_id := 41; unsubscribe_fails := true |}
           [ {| subscription_id := 42; unsubscribe_fails := false |} ]);
    try reflexivity; repeat constructor.
Defined.

(** *** Searching for a position *)

Section FindIndex.
Context {A : Type} (predicate : option A → Completion bool).

Lemma findIndex_from_range array position result :
  JsIndex.findIndex_from predicate array position = Normal result →
  result = (-1)%Z
  ∨ (position ≤ result < position + Z.of_nat (length array))%Z.
Proof.
  revert position. induction array as [|slot array IH]; intros position; cbn.
  - intros [= <-]. by left.
  - destruct (predicate slot) as [[]|e]; [|intros Hrest|done].
    + intros [= <-]. right. lia.
    + destruct (IH _ Hrest) as [->|Hrange]; [by left|right; lia].
Qed.

Lemma findIndex_from_found before slot rest position :
  Forall (λ x, predicate x = Normal false) before →
  predicate slot = Normal true →
  JsIndex.findIndex_from predicate (before ++ slot :: rest) position
  = Normal (position + Z.of_nat (length before))%Z.
Proof.
  intros Hbefore Hslot. revert position.
  induction Hbefore as [|x before Hx _ IH]; intros position; cbn.
  - rewrite Hslot. f_equal. lia.
  - rewrite Hx, IH. f_equal. lia.
Qed.

Lemma findIndex_from_throws before slot rest position e :
  Forall (λ x, predicate x = Normal false) before →
  predicate slot = Throw e →
  JsIndex.findIndex_from predicate (before ++ slot :: rest) position = Throw e.
Proof.
  intros Hbefore Hslot. revert position.
  induction Hbefore as [|x before Hx _ IH]; intros position; cbn.
  - by rewrite Hslot.
  - by rewrite Hx, IH.
Qed.

Lemma findIndex_from_missing array position :
  Forall (λ x, predicate x = Normal false) array →
  JsIndex.findIndex_from predicate array position = Normal (-1)%Z.
Proof.
  intros Harray. revert position.
  induction Harray as [|x array Hx _ IH]; intros position; cbn; [done|].
  by rewrite Hx, IH.
Qed.

End FindIndex.

(** *** The stage *)

Lemma assign_length n transaction staged :
  n = (-1)%Z ∨ (0 ≤ n < Z.of_nat (length (Stage.elements staged)))%Z →
  length (Stage.elements (Stage.assign n transaction staged))
  = length (Stage.elements staged).
Proof.
  intros [->|Hrange]; [done|]. unfold Stage.assign.
  destruct (Z.ltb_spec n 0) as [|_]; [lia|].
  destruct (Nat.ltb_spec (Z.to_nat n) (length (Stage.elements staged))) as [_|]; [|lia].
  cbn. apply length_insert.
Qed.

Lemma addStagedTransaction_length transaction staged staged' :
  Stage.addStagedTransaction transaction staged = Normal staged' →
  length (Stage.elements staged') = length (Stage.elements staged).
Proof.
  unfold Stage.addStagedTransaction, JsIndex.findIndex.
  destruct (JsIndex.findIndex_from _ _ _) as [n|e] eqn:Hfind; [|done].
  cbn [JsIndex.is_undefined negb]. intros [= <-].
  apply assign_length.
  destruct (findIndex_from_range _ _ _ _ Hfind) as [->|Hrange]; [by left|right; lia].
Qed.

(** X16. Through ADD_STAGED_TRANSACTION and RESET_TRANSACTION_STAGE the stage
    never gets longer: [findIndex] yields -1, never [undefined], so the
    branch that pushes is never taken. A stage that is empty stays empty. *)
Theorem stage_never_grows (operations : list Stage.Operation) (staged : Stage.t) :
  (length (Stage.elements (Stage.run operations staged))
   ≤ length (Stage.elements staged))%nat.
Proof.
  induction operations as [|operation operations IH] using rev_ind; [done|].
  unfold Stage.run in *. rewrite foldl_app. cbn [foldl].
  etrans; [|exact IH].
  destruct operation as [transaction|]; cbn; [|lia].
  destruct (Stage.ADD_STAGED_TRANSACTION transaction _) as [staged'|e] eqn:Hadd;
    [|done].
  by rewrite (addStagedTransaction_length _ _ _ Hadd).
Qed.

Lemma staged_predicate_false transaction info staged :
  transactionInfo transaction = Some info →
  Forall (other_hash (TransactionInfo.hash info)) staged →
  Forall (λ tx,
            match Stage.element_hash tx with
            | Throw e => Throw e
            | Normal h =>
                match transactionInfo_hash transaction with
                | Throw e => Throw e
                | Normal h' => Normal (bool_decide (h = h'))
                end
            end = Normal false) (Some <$> staged).
Proof.
  intros Hinfo Hstaged. apply Forall_fmap.
  eapply Forall_impl; [exact Hstaged|].
  intros tx (info' & Hinfo' & Hother). cbn.
  unfold transactionInfo_hash. rewrite Hinfo', Hinfo.
  by rewrite bool_decide_eq_false_2.
Qed.

(** X17. Staging a transaction the hash of which is not on the stage leaves
    the elements of the stage as they are: the transaction is assigned to
    the property "-1" of the array. *)
Theorem addStagedTransaction_new_hash transaction info staged named :
  transactionInfo transaction = Some info →
  Forall (other_hash (TransactionInfo.hash info)) staged →
  Stage.addStagedTransaction transaction (Stage.make (Some <$> staged) named)
  = Normal (Stage.make (Some <$> staged) (<["-1" := transaction]> named)).
Proof.
  intros Hinfo Hstaged. unfold Stage.addStagedTransaction, JsIndex.findIndex.
  cbn [Stage.elements].
  by rewrite findIndex_from_missing by by eapply staged_predicate_false.
Qed.

Lemma addStagedTransaction_new_hash_witness :
  Stage.addStagedTransaction Example.transaction_2
    (Stage.make [Some Example.transaction_1] ∅)
  = Normal (Stage.make [Some Example.transaction_1]
              {[ "-1" := Example.transaction_2 ]}).
Proof.
  apply (addStagedTransaction_new_hash Example.transaction_2
           (TransactionInfo.make 121 (Some Example.hash_2))
           [Example.transaction_1] ∅ eq_refl).
  repeat constructor. by eexists.
Defined.

(** X18. Staging a transaction the hash of which is on the stage replaces the
    first staged transaction with that hash, in place. *)
Theorem addStagedTransaction_staged_hash transaction info before tx info' rest named :
  transactionInfo transaction = Some info →
  Forall (other_hash (TransactionInfo.hash info)) before →
  transactionInfo tx = Some info' →
  TransactionInfo.hash info' = TransactionInfo.hash info →
  Stage.addStagedTransaction transaction
    (Stage.make ((Some <$> before) ++ Some tx :: rest) named)
  = Normal (Stage.make ((Some <$> before) ++ Some transaction :: rest) named).
Proof.
  intros Hinfo Hbefore Hinfo' Hsame.
  unfold Stage.addStagedTransaction, JsIndex.findIndex. cbn [Stage.elements].
  rewrite findIndex_from_found;
    [|by eapply staged_predicate_false
     |cbn; unfold transactionInfo_hash; rewrite Hinfo', Hinfo;
      by rewrite bool_decide_eq_true_2].
  cbn [JsIndex.is_undefined negb]. unfold Stage.assign. cbn [Stage.elements Stage.named].
  destruct (Z.ltb_spec (0 + Z.of_nat (length (Some <$> before))) 0) as [|_]; [lia|].
  rewrite Z.add_0_l, Nat2Z.id.
  destruct (Nat.ltb_spec (length (Some <$> before))
              (length ((Some <$> before) ++ Some tx :: rest))) as [_|Hlength].
  2:{ rewrite length_app in Hlength. cbn in Hlength. lia. }
  f_equal. f_equal.
  by rewrite (insert_app_r_alt _ _ _ _ (le_n _)), Nat.sub_diag.
Qed.

Lemma addStagedTransaction_staged_hash_witness :
  let newer := {| transactionInfo := Some (TransactionInfo.make 130 (Some Example.hash_1));
                  meta := None; body := "transfer 1, signed again" |} in
  Stage.addStagedTransaction newer
    (Stage.make [Some Example.transaction_2; Some Example.transaction_1] ∅)
  = Normal (Stage.make [Some Example.transaction_2; Some newer] ∅).
Proof.
  intros newer.
  apply (addStagedTransaction_staged_hash newer
           (TransactionInfo.make 130 (Some Example.hash_1))
           [Example.transaction_2] Example.transaction_1
           (TransactionInfo.make 120 (Some Example.hash_1)) [] ∅);
    try reflexivity.
  repeat constructor. by eexists.
Defined.

(** *** The signed transactions *)

Lemma signed_predicate_false transaction signed :
  Forall (λ tx, Signed.hash tx ≠ Signed.hash transaction) signed →
  Forall (λ tx : option Signed.t,
            match tx with
            | None => Throw (TypeError "Cannot read property 'hash' of undefined")
            | Some tx => Normal (bool_decide (Signed.hash tx = Signed.hash transaction))
            end = Normal false) (Some <$> signed).
Proof.
  intros Hsigned. apply Forall_fmap. eapply Forall_impl; [exact Hsigned|].
  intros tx Hother. cbn. by rewrite bool_decide_eq_false_2.
Qed.

Lemma removeSignedTransaction_found transaction before tx rest :
  Forall (λ tx, Signed.hash tx ≠ Signed.hash transaction) before →
  Signed.hash tx = Signed.hash transaction →
  Signed.removeSignedTransaction transaction ((Some <$> before) ++ Some tx :: rest)
  = Normal ((Some <$> before) ++ None :: rest).
Proof.
  intros Hbefore Hsame. unfold Signed.removeSignedTransaction, JsIndex.findIndex.
  rewrite findIndex_from_found;
    [|by apply signed_predicate_false|by rewrite bool_decide_eq_true_2].
  cbn [JsIndex.is_undefined negb]. unfold JsIndex.from, JsIndex.delete_at.
  destruct (Z.ltb_spec (0 + Z.of_nat (length (Some <$> before))) 0) as [|_]; [lia|].
  rewrite Z.add_0_l, Nat2Z.id. f_equal.
  by rewrite (insert_app_r_alt _ _ _ _ (le_n _)), Nat.sub_diag.
Qed.

Lemma removeSignedTransaction_hole transaction before rest :
  Forall (λ tx, Signed.hash tx ≠ Signed.hash transaction) before →
  Signed.removeSignedTransaction transaction ((Some <$> before) ++ None :: rest)
  = Throw (TypeError "Cannot read property 'hash' of undefined").
Proof.
  intros Hbefore. unfold Signed.removeSignedTransaction, JsIndex.findIndex.
  by erewrite findIndex_from_throws; [| by apply signed_predicate_false | done].
Qed.

(** X19. removeSignedTransaction never changes the length of the array of
    signed transactions: [delete] leaves a hole, which [Array.from] turns
    into [undefined]. *)
Theorem removeSignedTransaction_keeps_the_length transaction signed signed' :
  Signed.removeSignedTransaction transaction signed = Normal signed' →
  length signed' = length signed.
Proof.
  unfold Signed.removeSignedTransaction, JsIndex.findIndex.
  destruct (JsIndex.findIndex_from _ _ _) as [n|e]; [|done].
  cbn [JsIndex.is_undefined negb]. intros [= <-].
  unfold JsIndex.from, JsIndex.delete_at.
  destruct (n <? 0)%Z; [done|apply length_insert].
Qed.

Lemma removeSignedTransaction_keeps_the_length_witness :
  Signed.removeSignedTransaction Example2.signed_1
    [Some Example2.signed_2; Some Example2.signed_1]
  = Normal [Some Example2.signed_2; None]
  ∧ length [Some Example2.signed_2; (None : option Signed.t)] = 2.
Proof.
  split; [reflexivity|].
  apply (removeSignedTransaction_keeps_the_length Example2.signed_1
           [Some Example2.signed_2; Some Example2.signed_1]).
  reflexivity.
Defined.

(** X20. Adding a signed transaction and removing it again does not give the
    array back: an empty slot is left at its end. *)
Theorem addSignedTransaction_then_removeSignedTransaction transaction signed :
  Forall (λ tx, Signed.hash tx ≠ Signed.hash transaction) signed →
  Signed.removeSignedTransaction transaction
    (Signed.addSignedTransaction transaction (Some <$> signed))
  = Normal ((Some <$> signed) ++ [None]).
Proof.
  intros Hsigned. unfold Signed.addSignedTransaction, push.
  by apply removeSignedTransaction_found.
Qed.

Lemma addSignedTransaction_then_removeSignedTransaction_witness :
  Signed.removeSignedTransaction Example2.signed_2
    (Signed.addSignedTransaction Example2.signed_2 [Some Example2.signed_1])
  = Normal [Some Example2.signed_1; None].
Proof.
  apply (addSignedTransaction_then_removeSignedTransaction Example2.signed_2
           [Example2.signed_1]).
  repeat constructor. discriminate.
Defined.

(** X21. When the partial transaction is stored before its lock, the function
    REST_ANNOUNCE_PARTIAL maps over the announcement throws a TypeError:
    removing the partial transaction leaves an empty slot, which the search
    for the lock trips over; the lock stays among the signed transactions. *)
Theorem announced_partial_throws signedLock signedPartial before between rest :
  Forall (λ tx, Signed.hash tx ≠ Signed.hash signedPartial
                ∧ Signed.hash tx ≠ Signed.hash signedLock) before →
  Signed.announced_partial signedLock signedPartial
    ((Some <$> before) ++ Some signedPartial :: between ++ Some signedLock :: rest)
  = (Throw (TypeError "Cannot read property 'hash' of undefined"),
     (Some <$> before) ++ None :: between ++ Some signedLock :: rest).
Proof.
  intros Hbefore. unfold Signed.announced_partial.
  rewrite removeSignedTransaction_found;
    [|eapply Forall_impl; [exact Hbefore|]; by intros tx []|done].
  rewrite removeSignedTransaction_hole; [done|].
  eapply Forall_impl; [exact Hbefore|]. by intros tx [].
Qed.

Lemma announced_partial_throws_witness :
  Signed.announced_partial Example2.signed_1 Example2.signed_2
    [Some Example2.signed_2; Some Example2.signed_1]
  = (Throw (TypeError "Cannot read property 'hash' of undefined"),
     [None; Some Example2.signed_1]).
Proof.
  apply (announced_partial_throws Example2.signed_1 Example2.signed_2 [] [] []).
  constructor.
Defined.

(** X22. When the lock is stored before the partial transaction, the function
    REST_ANNOUNCE_PARTIAL maps over the announcement returns the successful
    result for the partial transaction and has emptied the slots of both. *)
Theorem announced_partial_removes_both signedLock signedPartial before between rest :
  Signed.hash signedLock ≠ Signed.hash signedPartial →
  Forall (λ tx, Signed.hash tx ≠ Signed.hash signedPartial
                ∧ Signed.hash tx ≠ Signed.hash signedLock) before →
  Forall (λ tx, Signed.hash tx ≠ Signed.hash signedPartial) between →
  Signed.announced_partial signedLock signedPartial
    ((Some <$> before) ++ Some signedLock :: (Some <$> between)
     ++ Some signedPartial :: rest)
  = (Normal {| Signed.transaction := signedPartial; Signed.success := true;
               Signed.error := None |},
     (Some <$> before) ++ None :: (Some <$> between) ++ None :: rest).
Proof.
  intros Hdistinct Hbefore Hbetween. unfold Signed.announced_partial.
  replace ((Some <$> before) ++ Some signedLock :: (Some <$> between)
           ++ Some signedPartial :: rest)
    with ((Some <$> (before ++ signedLock :: between)) ++ Some signedPartial :: rest)
    by by rewrite fmap_app, <-(assoc_L (++)).
  rewrite removeSignedTransaction_found; [|
    apply Forall_app; split;
      [eapply Forall_impl; [exact Hbefore|]; by intros tx []
      |by constructor] | done].
  rewrite fmap_app, <-(assoc_L (++)). cbn [fmap list_fmap app].
  rewrite removeSignedTransaction_found;
    [done|eapply Forall_impl; [exact Hbefore|]; by intros tx []|done].
Qed.

Lemma announced_partial_removes_both_witness :
  Signed.announced_partial Example2.signed_1 Example2.signed_2
    [Some Example2.signed_1; Some Example2.signed_2]
  = (Normal {| Signed.transaction := Example2.signed_2; Signed.success := true;
               Signed.error := None |},
     [None; None]).
Proof.
  apply (announced_partial_removes_both Example2.signed_1 Example2.signed_2 [] [] []).
  - discriminate.
  - constructor.
  - constructor.
Defined.

(** *** The account information *)

Lemma addWalletInfo_fold infos w :
  let w' := foldl (λ w info, Account.write (Account.addWalletInfo info) w) w infos in
  Account.console w' = Account.console w
  ∧ Account.currentWalletAddress (Account.state w')
    = Account.currentWalletAddress (Account.state w)
  ∧ Account.currentWalletInfo (Account.state w')
    = Account.currentWalletInfo (Account.state w)
  ∧ Account.currentWalletMosaics (Account.state w')
    = Account.currentWalletMosaics (Account.state w)
  ∧ ∀ key,
      Account.otherWalletsInfo (Account.state w') !! key
      = match last (filter (λ info, Account.plain (Account.address info) = key) infos) with
        | Some info => Some info
        | None => Account.otherWalletsInfo (Account.state w) !! key
        end.
Proof.
  induction infos as [|info infos IH] using rev_ind; [done|].
  rewrite foldl_app. cbn [foldl].
  destruct IH as (Hconsole & Haddress & Hinfo & Hmosaics & Hother).
  cbn -[filter]. do 4 (split; [done|]). intros key. rewrite filter_app.
  destruct (decide (Account.plain (Account.address info) = key)) as [<-|Hkey].
  - rewrite filter_cons_True, filter_nil by done. rewrite last_snoc.
    by rewrite lookup_insert_eq.
  - rewrite filter_cons_False, filter_nil by done. rewrite (right_id_L [] (++)).
    by rewrite lookup_insert_ne.
Qed.

(** X23. When the gateway answers, REST_FETCH_INFOS returns the answer and
    logs nothing; afterwards each address of the answer has the last
    information the answer holds for it, and every other address the
    information it had. *)
Theorem REST_FETCH_INFOS_stores_the_last_of_each env addresses peer infos w :
  Account.currentPeer env = Normal peer →
  Account.getAccountsInfo env peer addresses = Normal infos →
  let result := Account.REST_FETCH_INFOS env addresses w in
  fst result = Account.ReturnInfos infos
  ∧ Account.console (snd result) = Account.console w
  ∧ ∀ key,
      Account.otherWalletsInfo (Account.state (snd result)) !! key
      = match last (filter (λ info, Account.plain (Account.address info) = key) infos) with
        | Some info => Some info
        | None => Account.otherWalletsInfo (Account.state w) !! key
        end.
Proof.
  intros Hpeer Hinfos. unfold Account.REST_FETCH_INFOS. rewrite Hpeer, Hinfos.
  cbn [fst snd]. split; [done|].
  by destruct (addWalletInfo_fold infos w) as (Hconsole & _ & _ & _ & Hother).
Qed.

Lemma REST_FETCH_INFOS_stores_the_last_of_each_witness :
  let result := Account.REST_FETCH_INFOS Example2.env [Example2.address_2]
                  Example2.world in
  fst result = Account.ReturnInfos [Example2.info_1; Example2.info_2]
  ∧ Account.otherWalletsInfo (Account.state (snd result)) !! Example.address_1
    = Some Example2.info_1.
Proof.
  destruct (REST_FETCH_INFOS_stores_the_last_of_each Example2.env [Example2.address_2]
              "http://api-01.example.org:3000" [Example2.info_1; Example2.info_2]
              Example2.world eq_refl eq_refl) as (Hresult & _ & Hstored).
  split; [exact Hresult|]. exact (Hstored Example.address_1).
Defined.

(** X24. When no wallet is current, REST_FETCH_INFO returns [false] although
    the request succeeded: the information has been stored under its
    address before the comparison with the current address throws. *)
Theorem REST_FETCH_INFO_without_current_wallet env address peer addressObject
    accountInfo w :
  String.length address = 40 →
  Account.currentPeer env = Normal peer →
  Account.createFromRawAddress env address = Normal addressObject →
  Account.getAccountInfo env peer addressObject = Normal accountInfo →
  Account.currentWalletAddress (Account.state w) = None →
  let result := Account.REST_FETCH_INFO env (Some address) w in
  fst result = Account.ReturnFalse
  ∧ Account.otherWalletsInfo (Account.state (snd result))
    = <[Account.plain (Account.address accountInfo) := accountInfo]>
        (Account.otherWalletsInfo (Account.state w))
  ∧ Account.currentWalletInfo (Account.state (snd result))
    = Account.currentWalletInfo (Account.state w).
Proof.
  intros Hlength Hpeer Hobject Hinfo Hcurrent. unfold Account.REST_FETCH_INFO.
  assert (falsy (Some address) = false) as ->.
  { destruct address; [done|reflexivity]. }
  rewrite Hlength, Hpeer, Hobject, Hinfo. cbn [Nat.eqb negb orb].
  cbn [Account.write Account.state Account.addWalletInfo Account.currentWalletAddress].
  by rewrite Hcurrent.
Qed.

Lemma REST_FETCH_INFO_without_current_wallet_witness :
  let result := Account.REST_FETCH_INFO Example2.env (Some Example.address_1)
                  Example2.world in
  fst result = Account.ReturnFalse
  ∧ Account.otherWalletsInfo (Account.state (snd result)) !! Example.address_1
    = Some Example2.info_1.
Proof.
  destruct (REST_FETCH_INFO_without_current_wallet Example2.env Example.address_1
              "http://api-01.example.org:3000"
              {| Account.plain := Example.address_1 |} Example2.info_1 Example2.world
              eq_refl eq_refl eq_refl eq_refl eq_refl) as (Hresult & Hstored & _).
  split; [exact Hresult|]. rewrite Hstored. reflexivity.
Defined.

(** X25. For the address of the current wallet REST_FETCH_INFO returns the
    information fetched and stores it as [currentWalletInfo] and under its
    address; [currentWalletMosaics] stays as it was, SET_BALANCES
    committing to a mutation the module does not have. *)
Theorem REST_FETCH_INFO_of_the_current_wallet env address peer addressObject
    accountInfo current w :
  String.length address = 40 →
  Account.currentPeer env = Normal peer →
  Account.createFromRawAddress env address = Normal addressObject →
  Account.getAccountInfo env peer addressObject = Normal accountInfo →
  Account.currentWalletAddress (Account.state w) = Some current →
  Account.plain current = address →
  let result := Account.REST_FETCH_INFO env (Some address) w in
  fst result = Account.ReturnInfo accountInfo
  ∧ Account.currentWalletInfo (Account.state (snd result)) = Some accountInfo
  ∧ Account.otherWalletsInfo (Account.state (snd result))
      !! Account.plain (Account.address accountInfo) = Some accountInfo
  ∧ Account.currentWalletMosaics (Account.state (snd result))
    = Account.currentWalletMosaics (Account.state w).
Proof.
  intros Hlength Hpeer Hobject Hinfo Hcurrent Hsame. unfold Account.REST_FETCH_INFO.
  assert (falsy (Some address) = false) as ->.
  { destruct address; [done|reflexivity]. }
  rewrite Hlength, Hpeer, Hobject, Hinfo. cbn [Nat.eqb negb orb].
  cbn [Account.write Account.state Account.addWalletInfo Account.currentWalletAddress].
  rewrite Hcurrent, Hsame, String.eqb_refl. cbn.
  by rewrite lookup_insert_eq.
Qed.

Lemma REST_FETCH_INFO_of_the_current_wallet_witness :
  let result := Account.REST_FETCH_INFO Example2.env (Some Example.address_1)
                  Example2.world_7 in
  fst result = Account.ReturnInfo Example2.info_1
  ∧ Account.currentWalletInfo (Account.state (snd result)) = Some Example2.info_1
  ∧ Account.currentWalletMosaics (Account.state (snd result)) = [].
Proof.
  destruct (REST_FETCH_INFO_of_the_current_wallet Example2.env Example.address_1
              "http://api-01.example.org:3000"
              {| Account.plain := Example.address_1 |} Example2.info_1
              {| Account.plain := Example.address_1 |} Example2.world_7
              eq_refl eq_refl eq_refl eq_refl eq_refl eq_refl)
    as (Hresult & Hcurrent & _ & Hmosaics).
  split; [exact Hresult|]. split; [exact Hcurrent|exact Hmosaics].
Defined.
